(** * MasseyRamanujan: the hash-assisted search of [enumerate_over_gcf.py]

    A shallow embedding of the LHS hash table, the first enumeration, the
    refinement step and the work partitioning of
    [src/source/enumerate_over_gcf.py], and the properties of them that
    the specification states. *)

From Stdlib Require Import ZArith QArith Qabs Qround Lia List String Ascii.
From Stdlib Require Import DecimalString.
From stdpp Require Import gmap strings list fin_maps sorting.

Local Open Scope Z_scope.

(** ** Python exceptions as an error monad *)

Inductive exn : Type :=
| ZeroDivisionError
| ValueError
| IndexError
| FileNotFoundError.

Inductive exc (A : Type) : Type :=
| Ok (a : A)
| Raise (e : exn).
Arguments Ok {A} a.
Arguments Raise {A} e.

Definition exc_bind {A B : Type} (m : exc A) (k : A -> exc B) : exc B :=
  match m with
  | Ok a => k a
  | Raise e => Raise e
  end.

Notation "'let*' x ':=' m 'in' k" := (exc_bind m (fun x => k))
  (at level 10, x pattern, m at level 100, k at level 200).

(** The value of a computation that returned, [d] where it raised. *)
Definition returned {A : Type} (d : A) (m : exc A) : A :=
  match m with
  | Ok a => a
  | Raise _ => d
  end.

(** A [for] loop whose body may raise: the first exception ends the loop. *)
Fixpoint for_each {A S : Type} (body : S -> A -> exc S) (l : list A) (st : S)
  : exc S :=
  match l with
  | [] => Ok st
  | x :: l' => let* st' := body st x in for_each body l' st'
  end.

(** ** mpmath numbers

    An [mpf] is a finite value, an infinity or a NaN.  The finite values
    carry the rational they denote; the operations that round to the
    working precision are the fields of [MpArith] below, the exact ones
    ([== 0], [isnan], [isinf], [int()]) are defined on the value. *)

Inductive mpf : Type :=
| Fin (q : Q)
| Inf (negative : bool)
| NaN.

Definition isnan (x : mpf) : bool :=
  match x with NaN => true | _ => false end.

Definition isinf (x : mpf) : bool :=
  match x with Inf _ => true | _ => false end.

(** [x == 0] *)
Definition is_zero (x : mpf) : bool :=
  match x with
  | Fin q => Qnum q =? 0
  | _ => false
  end.

(** Truncation toward zero of a rational. *)
Definition Qtrunc_zero (q : Q) : Z := Z.quot (Qnum q) (Zpos (Qden q)).

(** [int(x)]: mpmath's [to_int] drops the fractional bits of the magnitude
    and restores the sign; an infinity or a NaN raises [ValueError]. *)
Definition mp_int (x : mpf) : exc Z :=
  match x with
  | Fin q => Ok (Qtrunc_zero q)
  | _ => Raise ValueError
  end.

(** The rounded arithmetic of one working precision ([mpmath.workdps]).
    [mp_div] is only called on a divisor that is not zero. *)
Class MpArith : Type := {
  mp_of_int : Z -> mpf;                    (* mpmath.mpf(n) *)
  mp_add : mpf -> mpf -> mpf;              (* x + y *)
  mp_add_int : mpf -> Z -> mpf;            (* x + n *)
  mp_mul_int : Z -> mpf -> mpf;            (* n * x *)
  mp_div : mpf -> mpf -> mpf;              (* x / y, y != 0 *)
  mp_div_int : mpf -> Z -> mpf;            (* x / n, n != 0 *)
  mp_almosteq : mpf -> mpf -> option mpf -> bool;
                                           (* mpmath.almosteq(s, t, rel_eps) *)
  mp_nstr : mpf -> nat -> string           (* mpmath.nstr(x, n) *)
}.

(** Division raises [ZeroDivisionError] on a zero divisor. *)
Definition py_div `{MpArith} (x y : mpf) : exc mpf :=
  if is_zero y then Raise ZeroDivisionError else Ok (mp_div x y).

Definition py_div_int `{MpArith} (x : mpf) (n : Z) : exc mpf :=
  if n =? 0 then Raise ZeroDivisionError else Ok (mp_div_int x n).

(** ** The LHS hash table *)

(** The stored transformation [[a, b], [c, d]]. *)
Record matrix : Type := Matrix { m_a : Z; m_b : Z; m_c : Z; m_d : Z }.

Global Instance matrix_eq_dec : EqDecision matrix.
Proof. solve_decision. Defined.

Record LHSHashTable : Type := mkLHSHashTable {
  s : gmap Z matrix;
  threshold : mpf
}.

(** [key in self.s], [self.s[key]] *)
Definition contains (t : LHSHashTable) (item : Z) : bool :=
  bool_decide (is_Some (s t !! item)).

Definition getitem (t : LHSHashTable) (item : Z) : option matrix :=
  s t !! item.

Section LHSTable.
Context `{MpArith}.

(** The body of the innermost loop of [LHSHashTable.__init__]; each
    [continue] returns the dictionary unchanged. *)
Definition lhs_body (const_val thr : mpf) (a b c d : Z)
    (tbl : gmap Z matrix) : exc (gmap Z matrix) :=
  if negb (Z.gcd (Z.gcd a b) (Z.gcd c d) =? 1) then Ok tbl else
  let denominator := mp_add_int (mp_mul_int c const_val) d in
  let numerator := mp_add_int (mp_mul_int a const_val) b in
  if is_zero denominator || is_zero numerator then Ok tbl else
  let val := mp_div numerator denominator in
  if isnan val || isinf val then Ok tbl else
  if negb (c + d =? 0)
     && mp_almosteq val
          (mp_div_int (mp_add (mp_of_int a) (mp_of_int b)) (c + d)) None
  then Ok tbl else
  let* q := py_div val thr in
  let* key := mp_int q in
  if bool_decide (is_Some (tbl !! key)) then Ok tbl else
  Ok (<[key := Matrix a b c d]> tbl).

(** The four nested loops. *)
Definition lhs_loop (search_range_top search_range_bottom : list Z)
    (const_val thr : mpf) (tbl : gmap Z matrix) : exc (gmap Z matrix) :=
  for_each (fun tbl a =>
    for_each (fun tbl b =>
      for_each (fun tbl c =>
        for_each (fun tbl d => lhs_body const_val thr a b c d tbl)
          search_range_bottom tbl)
        search_range_bottom tbl)
      search_range_top tbl)
    search_range_top tbl.

Definition LHSHashTable_init (search_range_top search_range_bottom : list Z)
    (const_val thr : mpf) : exc LHSHashTable :=
  let* tbl := lhs_loop search_range_top search_range_bottom const_val thr ∅ in
  Ok (mkLHSHashTable tbl thr).

End LHSTable.

(** ** Python lists and iterators *)

(** [range(lo, hi)] *)
Definition py_range (lo hi : Z) : list Z :=
  map (fun i => lo + Z.of_nat i) (seq 0 (Z.to_nat (hi - lo))).

(** [itertools.product] of the ranges [ls]: the last range varies fastest. *)
Fixpoint product (ls : list (list Z)) : list (list Z) :=
  match ls with
  | [] => [[]]
  | l :: ls' => flat_map (fun x => map (cons x) (product ls')) l
  end.

(** [itertools.compress(data, selectors)] *)
Fixpoint compress {A : Type} (data : list A) (selectors : list bool) : list A :=
  match data, selectors with
  | x :: data', b :: selectors' =>
      if b then x :: compress data' selectors' else compress data' selectors'
  | _, _ => []
  end.

(** [0 in an] *)
Definition zero_in (an : list Z) : bool := existsb (Z.eqb 0) an.

(** One bound of a slice: a negative index counts from the end, and the
    result is clamped to the list. *)
Definition slice_bound (len i : Z) : nat :=
  Z.to_nat (Z.min len (Z.max 0 (if i <? 0 then i + len else i))).

(** [l[start:stop]]; [stop = None] is [l[start:]]. *)
Definition py_slice {A : Type} (l : list A) (start : Z) (stop : option Z)
  : list A :=
  let len := Z.of_nat (length l) in
  let lo := slice_bound len start in
  let hi := match stop with
            | Some e => slice_bound len e
            | None => length l
            end in
  take (hi - lo)%nat (drop lo l).

(** ** Intermediate results *)

Record Match : Type := mkMatch {
  lhs_coefs : matrix;
  rhs_an_poly : list Z;
  rhs_bn_poly : list Z
}.

Global Instance Match_eq_dec : EqDecision Match.
Proof. solve_decision. Defined.

(** The series generators have the type the source annotates:
    [Callable[[List[int], int], List[int]]]. *)
Definition series_generator : Type := list Z -> nat -> list Z.

(** ** The search engine *)

Record EnumerateOverGCF : Type := mkEnumerateOverGCF {
  e_threshold : mpf;                  (* self.threshold *)
  lhs_limit : Z;
  const_val : Z -> mpf;               (* the constant at a working precision *)
  create_an_series : series_generator;
  create_bn_series : series_generator;
  hash_table : LHSHashTable
}.

(** [enumerator.create_an_series = f] and [enumerator.create_bn_series = f] *)
Definition set_create_an_series (f : series_generator) (e : EnumerateOverGCF)
  : EnumerateOverGCF :=
  mkEnumerateOverGCF (e_threshold e) (lhs_limit e) (const_val e)
    f (create_bn_series e) (hash_table e).

Definition set_create_bn_series (f : series_generator) (e : EnumerateOverGCF)
  : EnumerateOverGCF :=
  mkEnumerateOverGCF (e_threshold e) (lhs_limit e) (const_val e)
    (create_an_series e) f (hash_table e).

(** The working precisions that [__init__] sets, in decimal digits. *)
Definition enum_dps : Z := 50.
Definition verify_dps : Z := 2000.

(** The Python float [1e-10], converted exactly. *)
Definition float_1e_10 : mpf := Fin (7737125245533627 # (2 ^ 86)%positive).

(** The Python float [1 / 100], the tolerance [1 / (verify_dps // 20)]. *)
Definition float_0_01 : mpf := Fin (5764607523034235 # (2 ^ 59)%positive).

(** The files holding pickled tables, and the module's [hash_instance]. *)
Record world : Type := mkWorld {
  files : gmap string LHSHashTable;
  hash_instance_hash : LHSHashTable;
  hash_instance_name : string
}.

(** [LHSHashTable.save] *)
Definition save (self : LHSHashTable) (name : string) (w : world) : world :=
  let w1 := if bool_decide (hash_instance_name w = name) then w
            else mkWorld (files w) self name in
  mkWorld (<[name := self]> (files w1))
          (hash_instance_hash w1) (hash_instance_name w1).

(** [LHSHashTable.load_from] *)
Definition load_from (name : string) (w : world) : world * exc LHSHashTable :=
  if bool_decide (hash_instance_name w = name)
  then (w, Ok (hash_instance_hash w))
  else match files w !! name with
       | Some ret => (mkWorld (files w) ret name, Ok ret)
       | None => (w, Raise FileNotFoundError)
       end.

(** The module's [hash_instance] before any table is saved or loaded: an
    empty dictionary under the empty name. *)
Definition GlobalHashTableInstance_init : LHSHashTable * string :=
  (mkLHSHashTable ∅ NaN, EmptyString).

(** The argument of a transform: [const_val()] is an [mpf], [1] an [int]. *)
Inductive pynum : Type :=
| PyInt (n : Z)
| PyMpf (x : mpf).

(** Modelled from the spec: [MobiusTransform.__call__] of [mobius.py], which
    is not among the sources.  The transform [[a, b], [c, d]] maps [x] to
    [(a x + b) / (c x + d)]; where the denominator is zero the evaluation
    is undefined and raises the division error. *)
Definition MobiusTransform_call `{MpArith} (t : matrix) (x : pynum) : exc mpf :=
  match x with
  | PyInt n =>
      let numerator := m_a t * n + m_b t in
      let denominator := m_c t * n + m_d t in
      if denominator =? 0 then Raise ZeroDivisionError
      else Ok (mp_div (mp_of_int numerator) (mp_of_int denominator))
  | PyMpf v =>
      let numerator := mp_add_int (mp_mul_int (m_a t) v) (m_b t) in
      let denominator := mp_add_int (mp_mul_int (m_c t) v) (m_d t) in
      py_div numerator denominator
  end.
Arguments MobiusTransform_call : simpl never.

(** [__number_of_elements] *)
Definition number_of_elements (permutation_options : list (list Z)) : Z :=
  fold_left (fun res l => res * Z.of_nat (length l)) permutation_options 1.

(** [__create_series_list] *)
Definition create_series_list (coefficient_iter : list (list Z))
    (gen : series_generator) : list (list Z) * list (list Z) :=
  let coef_list := coefficient_iter in
  let series_list := map (fun c => gen c 32%nat) coef_list in
  let series_filter := map (fun an => negb (zero_in an)) series_list in
  let series_list := compress series_list series_filter in
  let coef_list := compress coef_list series_filter in
  (coef_list, series_list).

Section Phases.
(** The arithmetic of the precision the phase runs at, and the
    evaluation [EfficientGCF(an, bn).evaluate()] of [mobius.py] at that
    precision. *)
Context {ar : MpArith}.
Variable gcf_evaluate : list Z -> list Z -> exc mpf.

(** Lines 230-233 and 249-252: the probe of one continued fraction. *)
Definition probe (self : EnumerateOverGCF) (an bn a_coef b_coef : list Z)
    (results : list Match) : exc (list Match) :=
  let* v := gcf_evaluate an bn in
  let* q := py_div v (e_threshold self) in
  let* key := mp_int q in
  if contains (hash_table self) key then
    match getitem (hash_table self) key with
    | Some lhs => Ok (results ++ [mkMatch lhs a_coef b_coef])
    | None => Ok results
    end
  else Ok results.

(** [__first_enumeration] *)
Definition first_enumeration (self : EnumerateOverGCF)
    (poly_a poly_b : list (list Z)) : exc (list Match) :=
  let a_coef_iter := product poly_a in
  let neg_poly_b := map (map Z.opp) poly_b in
  let b_coef_iter := product poly_b ++ product neg_poly_b in
  let size_b := 2 * number_of_elements poly_b in
  let size_a := number_of_elements poly_a in
  if size_b <? size_a then
    let '(b_coef_list, bn_list) :=
      create_series_list b_coef_iter (create_bn_series self) in
    for_each (fun results a_coef =>
        let an := create_an_series self a_coef 32%nat in
        if zero_in an then Ok results else
        for_each (fun results bn_coef =>
            probe self an (fst bn_coef) a_coef (snd bn_coef) results)
          (zip bn_list b_coef_list) results)
      a_coef_iter []
  else
    let '(a_coef_list, an_list) :=
      create_series_list a_coef_iter (create_an_series self) in
    for_each (fun results b_coef =>
        let bn := create_bn_series self b_coef 32%nat in
        if zero_in bn then Ok results else
        for_each (fun results an_coef =>
            probe self (fst an_coef) bn (snd an_coef) b_coef results)
          (zip an_list a_coef_list) results)
      b_coef_iter [].

(** The [try] block of [__refine_results]: [Ok None] is a [continue]. *)
Definition refine_checks (self : EnumerateOverGCF) (dps : Z) (t : matrix)
  : exc (option mpf) :=
  let* val := MobiusTransform_call t (PyMpf (const_val self dps)) in
  if isinf val || isnan val then Ok None else
  let* t1 := MobiusTransform_call t (PyInt 1) in
  if mp_almosteq val t1 (Some float_0_01) then Ok None else Ok (Some val).

(** The body of the loop of [__refine_results]. *)
Definition refine_body (self : EnumerateOverGCF) (dps : Z)
    (results : list Match) (r : Match) : exc (list Match) :=
  let t := lhs_coefs r in
  match refine_checks self dps t with
  | Raise ZeroDivisionError => Ok results
  | Raise e => Raise e
  | Ok None => Ok results
  | Ok (Some val) =>
      let an := create_an_series self (rhs_an_poly r) 1000%nat in
      let bn := create_bn_series self (rhs_bn_poly r) 1000%nat in
      let val_str := mp_nstr val 100 in
      let* rhs := gcf_evaluate an bn in
      let rhs_str := mp_nstr rhs 100 in
      if String.eqb val_str rhs_str then Ok (results ++ [r]) else Ok results
  end.

(** [__refine_results] *)
Definition refine_results (self : EnumerateOverGCF) (dps : Z)
    (intermediate_results : list Match) : exc (list Match) :=
  for_each (refine_body self dps) intermediate_results [].

End Phases.

(** What [multi_core_enumeration_wrapper] returns: the list of worker 0
    when it runs alone, the list that [pool.map] builds otherwise. *)
Inductive wrapper_results : Type :=
| SingleCore (results : list Match)
| PoolMap (results : list (list Match)).

Section Engine.
(** mpmath at a working precision of [dps] decimal digits. *)
Variable arith : Z -> MpArith.
(** [create_series_from_compact_poly] of [series_generators.py]. *)
Variable create_series_from_compact_poly : series_generator.
(** [EfficientGCF(an, bn).evaluate()] of [mobius.py], at a precision. *)
Variable EfficientGCF_evaluate : MpArith -> list Z -> list Z -> exc mpf.

(** [EnumerateOverGCF.__init__]; [sym_constant] gives the value of the
    constant at a working precision. *)
Definition EnumerateOverGCF_init (sym_constant : Z -> mpf)
    (lhs_search_limit : Z) (saved_hash : string) (w : world)
  : world * exc EnumerateOverGCF :=
  let self tbl :=
    mkEnumerateOverGCF float_1e_10 lhs_search_limit sym_constant
      create_series_from_compact_poly create_series_from_compact_poly tbl in
  if bool_decide (saved_hash = EmptyString) then
    (w, let* tbl := LHSHashTable_init (H := arith enum_dps)
                      (py_range 0 (lhs_search_limit + 1))
                      (py_range (- lhs_search_limit) (lhs_search_limit + 1))
                      (sym_constant enum_dps) float_1e_10 in
        Ok (self tbl))
  else
    let '(w', loaded) := load_from saved_hash w in
    (w', let* tbl := loaded in Ok (self tbl)).

(** [find_hits] *)
Definition find_hits (self : EnumerateOverGCF) (poly_a poly_b : list (list Z))
  : exc (list Match) :=
  let* results :=
    first_enumeration (ar := arith enum_dps)
      (EfficientGCF_evaluate (arith enum_dps)) self poly_a poly_b in
  refine_results (ar := arith (verify_dps * 2))
    (EfficientGCF_evaluate (arith (verify_dps * 2))) self (verify_dps * 2)
    results.

(** The slice of one range that the worker [index] keeps. *)
Definition worker_slice (num_cores index tile : Z) (row : list Z) : list Z :=
  if index =? num_cores - 1
  then py_slice row (index * tile) None
  else py_slice row (index * tile) (Some ((index + 1) * tile)).

(** One round of the loop of lines 389-393: [poly_a[s]] becomes the
    worker's slice of it. *)
Definition tile_step (num_cores index : Z) (splits_size : list Z)
    (poly_a : list (list Z)) (sidx : nat) : exc (list (list Z)) :=
  match splits_size !! sidx, poly_a !! sidx with
  | Some tile, Some row =>
      Ok (<[sidx := worker_slice num_cores index tile row]> poly_a)
  | _, _ => Raise IndexError
  end.

(** The loop: the list [poly_a] is updated in place, so the rounds done
    before an exception stay done. *)
Fixpoint tile_loop (num_cores index : Z) (splits_size : list Z)
    (rounds : list nat) (poly_a : list (list Z))
  : list (list Z) * exc unit :=
  match rounds with
  | [] => (poly_a, Ok tt)
  | sidx :: rounds' =>
      match tile_step num_cores index splits_size poly_a sidx with
      | Ok poly_a' => tile_loop num_cores index splits_size rounds' poly_a'
      | Raise e => (poly_a, Raise e)
      end
  end.

(** The lists a caller of [multi_core_enumeration] holds. *)
Record store : Type := mkStore {
  st_poly_a : list (list Z);
  st_poly_b : list (list Z)
}.

(** [multi_core_enumeration]: the state after the call and its result.
    The rendering of the results (printing, LaTeX) only writes output. *)
Definition multi_core_enumeration (sym_constant : Z -> mpf)
    (lhs_search_limit : Z) (saved_hash : string) (st : store)
    (num_cores : Z) (splits_size : list Z)
    (create_an_series create_bn_series : option series_generator)
    (index : Z) (w : world) : world * store * exc (list Match) :=
  let '(poly_a, tiled) :=
    tile_loop num_cores index splits_size (seq 0 (length splits_size))
      (st_poly_a st) in
  let st' := mkStore poly_a (st_poly_b st) in
  match tiled with
  | Raise e => (w, st', Raise e)
  | Ok _ =>
      let '(w', made) :=
        EnumerateOverGCF_init sym_constant lhs_search_limit saved_hash w in
      (w', st',
       let* enumerator := made in
       let enumerator :=
         match create_an_series with
         | Some f => set_create_an_series f enumerator
         | None => enumerator
         end in
       let enumerator :=
         match create_bn_series with
         | Some f => set_create_bn_series f enumerator
         | None => enumerator
         end in
       find_hits enumerator (st_poly_a st') (st_poly_b st'))
  end.

(** [pool.map(func, range(num_cores))]: every worker process runs [func]
    on its own copy of the arguments and of the parent's state, and the
    results come back in the order of the indices. *)
Fixpoint pool_map (func : Z -> exc (list Match)) (indices : list Z)
  : exc (list (list Match)) :=
  match indices with
  | [] => Ok []
  | i :: indices' =>
      let* r := func i in
      let* rs := pool_map func indices' in
      Ok (r :: rs)
  end.

(** Lines 431-439: the table is built and saved, or loaded ahead of the
    workers; [posix] is [os.name != 'nt'].  The result is the name the
    workers load the table from. *)
Definition wrapper_prepare (posix : bool) (sym_constant : Z -> mpf)
    (lhs_search_limit : Z) (saved_hash : option string) (w : world)
  : world * exc string :=
  let is_file :=
    match saved_hash with
    | Some name => bool_decide (is_Some (files w !! name))
    | None => false
    end in
  let name := default "tmp_hash.p"%string saved_hash in
  if negb is_file then
    let '(w', made) :=
      EnumerateOverGCF_init sym_constant lhs_search_limit EmptyString w in
    match made with
    | Ok enumerator => (save (hash_table enumerator) name w', Ok name)
    | Raise e => (w', Raise e)
    end
  else if posix then
    let '(w', made) :=
      EnumerateOverGCF_init sym_constant lhs_search_limit name w in
    (w', let* _ := made in Ok name)
  else (w, Ok name).

(** Lines 441-442: the naive split of the first range. *)
Definition wrapper_splits (poly_a : list (list Z)) (num_cores : Z)
    (manual_splits_size : option (list Z)) : exc (list Z) :=
  match manual_splits_size with
  | Some sz => Ok sz
  | None =>
      match poly_a with
      | [] => Raise IndexError
      | row :: _ =>
          if num_cores =? 0 then Raise ZeroDivisionError
          else Ok [Z.of_nat (length row) / num_cores]
      end
  end.

(** The state a worker process starts from: a fork keeps the parent's
    [hash_instance], a fresh interpreter starts with an empty one. *)
Definition child_world (posix : bool) (w : world) : world :=
  if posix then w
  else mkWorld (files w) (fst GlobalHashTableInstance_init)
         (snd GlobalHashTableInstance_init).

(** [multi_core_enumeration_wrapper] *)
Definition multi_core_enumeration_wrapper (posix : bool)
    (sym_constant : Z -> mpf) (lhs_search_limit : Z) (st : store)
    (num_cores : Z) (manual_splits_size : option (list Z))
    (saved_hash : option string)
    (create_an_series create_bn_series : option series_generator)
    (w : world) : world * store * exc wrapper_results :=
  match wrapper_prepare posix sym_constant lhs_search_limit saved_hash w with
  | (w1, Raise e) => (w1, st, Raise e)
  | (w1, Ok name) =>
      match wrapper_splits (st_poly_a st) num_cores manual_splits_size with
      | Raise e => (w1, st, Raise e)
      | Ok splits_size =>
          let func st0 index w0 :=
            multi_core_enumeration sym_constant lhs_search_limit name st0
              num_cores splits_size create_an_series create_bn_series
              index w0 in
          if num_cores =? 1 then
            let '(w2, st2, r) := func st 0 w1 in
            (w2, st2, let* results := r in Ok (SingleCore results))
          else if num_cores <? 1 then (w1, st, Raise ValueError)
          else
            (w1, st,
             let* results :=
               pool_map (fun i => snd (func st i (child_world posix w1)))
                 (py_range 0 num_cores) in
             Ok (PoolMap results))
      end
  end.

End Engine.

(** ** Exact arithmetic

    The instance of [MpArith] that computes without rounding.  It agrees
    with mpmath wherever every intermediate value has a binary expansion
    that fits the working precision, as for small integers and halves. *)

Module Exact.

Definition lift1 (f : Q -> Q) (x : mpf) : mpf :=
  match x with
  | Fin a => Fin (Qred (f a))
  | other => other
  end.

Definition add (x y : mpf) : mpf :=
  match x, y with
  | Fin a, Fin b => Fin (Qred (a + b)%Q)
  | NaN, _ | _, NaN => NaN
  | Inf sx, Inf sy => if Bool.eqb sx sy then Inf sx else NaN
  | Inf sx, Fin _ => Inf sx
  | Fin _, Inf sy => Inf sy
  end.

Definition of_int (n : Z) : mpf := Fin (inject_Z n).

Definition mul_int (n : Z) (x : mpf) : mpf :=
  match x with
  | Fin a => Fin (Qred (inject_Z n * a)%Q)
  | Inf sx => if n =? 0 then NaN else Inf (xorb sx (n <? 0))
  | NaN => NaN
  end.

Definition div (x y : mpf) : mpf :=
  match x, y with
  | Fin a, Fin b => Fin (Qred (a / b)%Q)
  | NaN, _ | _, NaN => NaN
  | Inf _, Inf _ => NaN
  | Inf sx, Fin b => Inf (xorb sx (Qnum b <? 0))
  | Fin _, Inf _ => Fin 0%Q
  end.

(** [mpmath.almosteq]: the absolute error, then the relative one; the
    tolerance defaults to [2 ** (4 - prec)]. *)
Definition almosteq (prec : Z) (s t : mpf) (rel_eps : option mpf) : bool :=
  match s, t with
  | Fin a, Fin b =>
      let eps := match rel_eps with
                 | Some (Fin e) => e
                 | _ => 1 # (2 ^ Z.to_pos (prec - 4))%positive
                 end in
      let diff := Qabs (a - b)%Q in
      if Qle_bool diff eps then true else
      let abss := Qabs a in
      let abst := Qabs b in
      let err := if negb (Qle_bool abst abss) then (diff / abst)%Q
                 else (diff / abss)%Q in
      Qle_bool err eps
  | _, _ => false
  end.

Definition digits (n : Z) : list ascii :=
  list_ascii_of_string (NilZero.string_of_uint (N.to_uint (Z.to_N n))).

(** The least [k >= 1] with [n * 10 ^ k >= d], searched upward. *)
Fixpoint shift_up (fuel : nat) (n d k : Z) : Z :=
  match fuel with
  | O => k
  | S fuel' => if d <=? n * 10 ^ k then k else shift_up fuel' n d (k + 1)
  end.

Fixpoint rstrip_zeros (rev_digits : list ascii) : list ascii :=
  match rev_digits with
  | c :: rest => if Ascii.eqb c "0" then rstrip_zeros rest else rev_digits
  | [] => []
  end.

(** [mpmath.nstr(x, n)]: [n] significant digits, the last one rounded
    on the digit after it, trailing zeros stripped. *)
Definition nstr (x : mpf) (n : nat) : string :=
  match x with
  | NaN => "nan"%string
  | Inf false => "+inf"%string
  | Inf true => "-inf"%string
  | Fin q =>
      if Qnum q =? 0 then "0.0"%string else
      let dps := Z.of_nat n in
      let sign := if Qnum q <? 0 then "-"%string else ""%string in
      let num := Z.abs (Qnum q) in
      let den := Zpos (Qden q) in
      let e := if den <=? num
               then Z.of_nat (length (digits (num / den))) - 1
               else - shift_up (Pos.size_nat (Qden q)) num den 1 in
      let scaled := if e <=? dps then num * 10 ^ (dps - e) / den
                    else num / (den * 10 ^ (e - dps)) in
      let m := scaled / 10 + (if 5 <=? scaled mod 10 then 1 else 0) in
      let '(m, e) := if m =? 10 ^ dps then (10 ^ (dps - 1), e + 1)
                     else (m, e) in
      let ds := digits m in
      let min_fixed := Z.min (- (dps / 3)) (-5) in
      let fixed := (min_fixed <? e) && (e <? dps) in
      let ds := if fixed && (e <? 0)
                then repeat "0"%char (Z.to_nat (- e)) ++ ds else ds in
      let split := if fixed && (0 <=? e) then Z.to_nat (e + 1) else 1%nat in
      let body := take split ds ++ "."%char :: drop split ds in
      let body := rev (rstrip_zeros (rev body)) in
      let body := match last body with
                  | Some "."%char => body ++ ["0"%char]
                  | _ => body
                  end in
      let suffix :=
        if fixed then ""%string
        else if 0 <=? e
             then String.append "e+" (string_of_list_ascii (digits e))
             else String.append "e-" (string_of_list_ascii (digits (- e))) in
      String.append sign (String.append (string_of_list_ascii body) suffix)
  end.

(** [mpmath.libmp.dps_to_prec] *)
Definition dps_to_prec (dps : Z) : Z :=
  Z.max 1 ((2 * (dps + 1) * 33219280948873626 + 10 ^ 16) / (2 * 10 ^ 16)).

Definition arith (dps : Z) : MpArith := {|
  mp_of_int := of_int;
  mp_add := add;
  mp_add_int := fun x n => add x (of_int n);
  mp_mul_int := mul_int;
  mp_div := div;
  mp_div_int := fun x n => div x (of_int n);
  mp_almosteq := almosteq (dps_to_prec dps);
  mp_nstr := nstr
|}.

End Exact.

(** ** The collaborators the sources do not include *)

(** Modelled from the spec: [create_series_from_compact_poly] of
    [series_generators.py], which is not among the sources.  A coefficient
    assignment is a compact polynomial, evaluated at each index in nested
    form; the result has the requested length. *)
Definition compact_poly (coefs : list Z) (n : Z) : Z :=
  fold_left (fun acc c => acc * n + c) coefs 0.

Definition series_from_compact_poly : series_generator :=
  fun coefs len => map (fun i => compact_poly coefs (Z.of_nat i)) (seq 0 len).

(** The forward recurrence of the convergents of
    [a0 + b1 / (a1 + b2 / (a2 + ...))]. *)
Fixpoint gcf_recurrence (terms : list (Z * Z)) (prev_q q prev_p p : Z)
  : Z * Z :=
  match terms with
  | [] => (p, q)
  | (a, b) :: terms' =>
      gcf_recurrence terms' q (a * q + b * prev_q) p (a * p + b * prev_p)
  end.

(** Modelled from the spec: [EfficientGCF] of [mobius.py], which is not
    among the sources.  The continued fraction of the two sequences is
    evaluated by forward recurrence and the last convergent is divided
    out at the working precision; a zero denominator is an ill-defined
    division. *)
Definition forward_gcf (ar : MpArith) (an bn : list Z) : exc mpf :=
  match an with
  | [] => Raise IndexError
  | a0 :: an' =>
      let '(p, q) := gcf_recurrence (zip an' (tail bn)) 0 1 1 a0 in
      if q =? 0 then Raise ZeroDivisionError
      else Ok (mp_div (mp_of_int p) (mp_of_int q))
  end.

(** The same evaluation, signalling the ill-defined division by a NaN. *)
Definition forward_gcf_nan (ar : MpArith) (an bn : list Z) : exc mpf :=
  match forward_gcf ar an bn with
  | Raise ZeroDivisionError => Ok NaN
  | other => other
  end.

(** ** A run on a rational constant *)

Module Sample.

(** The constant [1/4] at every precision. *)
Definition quarter : Z -> mpf := fun _ => Fin (1 # 4).

Definition world0 : world :=
  mkWorld ∅ (fst GlobalHashTableInstance_init)
    (snd GlobalHashTableInstance_init).

Definition init (limit : Z) : world * exc EnumerateOverGCF :=
  EnumerateOverGCF_init Exact.arith series_from_compact_poly quarter limit
    EmptyString world0.

(** An engine whose table holds the transform [1 / x] alone. *)
Definition small_enumerator : EnumerateOverGCF :=
  mkEnumerateOverGCF float_1e_10 1 quarter
    series_from_compact_poly series_from_compact_poly
    (mkLHSHashTable {[ 39999999999 := Matrix 0 1 1 0 ]} float_1e_10).

(** The engine of a search limit. *)
Definition enumerator (limit : Z) : EnumerateOverGCF :=
  returned small_enumerator (snd (init limit)).

(** The table of the ranges of the limit 1. *)
Definition table1 : LHSHashTable :=
  returned (hash_table small_enumerator)
    (LHSHashTable_init (H := Exact.arith 50) [0; 1] [-1; 0; 1]
       (Fin (1 # 4)) float_1e_10).

(** A table of the constant [1/2] with the threshold [1]. *)
Definition table_half : LHSHashTable :=
  returned (hash_table small_enumerator)
    (LHSHashTable_init (H := Exact.arith 50) [1] [-1; 0]
       (Fin (1 # 2)) (Fin 1)).

(** [EnumerateOverGCF(1/4, limit).find_hits(poly_a, poly_b)] with the
    evaluator [gcf]. *)
Definition hits (gcf : MpArith -> list Z -> list Z -> exc mpf) (limit : Z)
    (poly_a poly_b : list (list Z)) : exc (list Match) :=
  let* e := snd (init limit) in
  find_hits Exact.arith gcf e poly_a poly_b.

End Sample.


(** The candidates in the order the four loops visit them. *)
Definition candidates (search_range_top search_range_bottom : list Z)
  : list matrix :=
  flat_map (fun a =>
    flat_map (fun b =>
      flat_map (fun c =>
        map (fun d => Matrix a b c d) search_range_bottom)
        search_range_bottom)
      search_range_top)
    search_range_top.

(** The parts of the body of the loop, as functions of the candidate. *)
Section LHSCandidate.
Context `{MpArith}.

Definition lhs_numerator (const_val : mpf) (m : matrix) : mpf :=
  mp_add_int (mp_mul_int (m_a m) const_val) (m_b m).

Definition lhs_denominator (const_val : mpf) (m : matrix) : mpf :=
  mp_add_int (mp_mul_int (m_c m) const_val) (m_d m).

Definition lhs_value (const_val : mpf) (m : matrix) : mpf :=
  mp_div (lhs_numerator const_val m) (lhs_denominator const_val m).

(** [(mpf(a) + mpf(b)) / (c + d)], the transform at [x = 1]. *)
Definition transform_at_one (m : matrix) : exc mpf :=
  py_div_int (mp_add (mp_of_int (m_a m)) (mp_of_int (m_b m))) (m_c m + m_d m).

(** No [continue] is taken before the key is computed. *)
Definition lhs_accepts (const_val : mpf) (m : matrix) : bool :=
  (Z.gcd (Z.gcd (m_a m) (m_b m)) (Z.gcd (m_c m) (m_d m)) =? 1)
  && negb (is_zero (lhs_denominator const_val m)
           || is_zero (lhs_numerator const_val m))
  && negb (isnan (lhs_value const_val m) || isinf (lhs_value const_val m))
  && negb (negb (m_c m + m_d m =? 0)
           && mp_almosteq (lhs_value const_val m)
                (mp_div_int (mp_add (mp_of_int (m_a m)) (mp_of_int (m_b m)))
                   (m_c m + m_d m)) None).

(** [val / self.threshold] and its key. *)
Definition lhs_quotient (const_val thr : mpf) (m : matrix) : exc mpf :=
  py_div (lhs_value const_val m) thr.

Definition lhs_key (const_val thr : mpf) (m : matrix) : exc Z :=
  let* q := lhs_quotient const_val thr m in mp_int q.

Definition lhs_step (const_val thr : mpf) (tbl : gmap Z matrix) (m : matrix)
  : exc (gmap Z matrix) :=
  if lhs_accepts const_val m then
    let* key := lhs_key const_val thr m in
    if bool_decide (is_Some (tbl !! key)) then Ok tbl
    else Ok (<[key := m]> tbl)
  else Ok tbl.

End LHSCandidate.

(** Neither series of a match has a zero among its 32 terms. *)
Definition zero_free (self : EnumerateOverGCF) (m : Match) : Prop :=
  zero_in (create_an_series self (rhs_an_poly m) 32%nat) = false
  /\ zero_in (create_bn_series self (rhs_bn_poly m) 32%nat) = false.

(** A match that [__refine_results] keeps: the checks pass and the two
    strings of 100 digits are the same. *)
Definition confirmed {ar : MpArith} (gcf_evaluate : list Z -> list Z -> exc mpf)
    (self : EnumerateOverGCF) (dps : Z) (r : Match) : bool :=
  match refine_checks self dps (lhs_coefs r) with
  | Ok (Some val) =>
      match gcf_evaluate (create_an_series self (rhs_an_poly r) 1000%nat)
              (create_bn_series self (rhs_bn_poly r) 1000%nat) with
      | Ok rhs => String.eqb (mp_nstr val 100) (mp_nstr rhs 100)
      | Raise _ => false
      end
  | _ => false
  end.

Module SampleMatches.

(** The match of the transform [1 / x] with [5 - 4 / (5 - 4 / ...)]. *)
Definition good : Match := mkMatch (Matrix 0 1 1 0) [5] [-4].

(** A match of the same transform with [5 + 4 / (5 + 4 / ...)]. *)
Definition collision : Match := mkMatch (Matrix 0 1 1 0) [5] [4].

(** The match of the same transform with [3 + 4 / (3 + 4 / ...)]. *)
Definition other : Match := mkMatch (Matrix 0 1 1 0) [3] [4].

(** A match whose transform [x / (x - 1)] has no value at [x = 1]. *)
Definition pole_at_one : Match := mkMatch (Matrix 1 0 1 (-1)) [5] [-4].

End SampleMatches.

(** The lists of the caller after a call of [multi_core_enumeration]. *)
Definition store_after {W R : Type} (out : W * store * R) : store :=
  snd (fst out).

Module SampleRun.

(** Two workers on the ranges [[5, 3]] and [[4]], no table saved yet. *)
Definition two_workers : world * store * exc wrapper_results :=
  multi_core_enumeration_wrapper Exact.arith series_from_compact_poly
    forward_gcf true Sample.quarter 1 (mkStore [[5; 3]] [[4]]) 2
    None None None None Sample.world0.

(** The same search by one worker. *)
Definition one_worker : world * store * exc wrapper_results :=
  multi_core_enumeration_wrapper Exact.arith series_from_compact_poly
    forward_gcf true Sample.quarter 1 (mkStore [[5; 3]] [[4]]) 1
    None None None None Sample.world0.

End SampleRun.

(** ** Equality of tables *)

(** [x == y] on numbers: a NaN equals nothing, itself included. *)
Definition mpf_eqb (x y : mpf) : bool :=
  match x, y with
  | Fin a, Fin b => Qeq_bool a b
  | Inf sx, Inf sy => Bool.eqb sx sy
  | _, _ => false
  end.

(** [self.s.keys()] and [sorted] *)
Definition keys (t : LHSHashTable) : list Z := (map_to_list (s t)).*1.

Definition sorted (l : list Z) : list Z := merge_sort Z.le l.

(** [LHSHashTable.__eq__] against another table (an [other] of another
    type is not equal); the keys are compared sorted, so the order in
    which the dictionary lists them does not matter. *)
Definition LHSHashTable_eq (self other : LHSHashTable) : bool :=
  let ret := mpf_eqb (threshold self) (threshold other) in
  ret && bool_decide (sorted (keys self) = sorted (keys other)).

(** ** The enumeration as a function of the pairs *)

(** Every element mapped, the first exception ending the traversal. *)
Fixpoint mapM_exc {A B : Type} (f : A -> exc B) (l : list A) : exc (list B) :=
  match l with
  | [] => Ok []
  | x :: l' =>
      let* y := f x in
      let* ys := mapM_exc f l' in
      Ok (y :: ys)
  end.

(** The probe of the pair of two assignments: the match it appends. *)
Definition probe_match {ar : MpArith}
    (gcf_evaluate : list Z -> list Z -> exc mpf) (self : EnumerateOverGCF)
    (a_coef b_coef : list Z) : exc (list Match) :=
  let* v := gcf_evaluate (create_an_series self a_coef 32%nat)
              (create_bn_series self b_coef 32%nat) in
  let* q := py_div v (e_threshold self) in
  let* key := mp_int q in
  Ok (match getitem (hash_table self) key with
      | Some lhs => [mkMatch lhs a_coef b_coef]
      | None => []
      end).

(** The assignments of [b_coef_iter]. *)
Definition b_assignments (poly_b : list (list Z)) : list (list Z) :=
  product poly_b ++ product (map (map Z.opp) poly_b).

(** The assignments whose 32 terms have no zero. *)
Definition without_zero (gen : series_generator) (coefs : list (list Z))
  : list (list Z) :=
  List.filter (fun c => negb (zero_in (gen c 32%nat))) coefs.

(** [__first_enumeration] as a function of the pairs of assignments: the
    streamed side is the outer traversal, the cached side the inner one. *)
Definition first_enumeration_pairs {ar : MpArith}
    (gcf_evaluate : list Z -> list Z -> exc mpf) (self : EnumerateOverGCF)
    (poly_a poly_b : list (list Z)) : exc (list Match) :=
  if 2 * number_of_elements poly_b <? number_of_elements poly_a then
    let* found :=
      mapM_exc (fun a_coef =>
          if zero_in (create_an_series self a_coef 32%nat) then Ok [] else
          let* hits :=
            mapM_exc (fun b_coef => probe_match gcf_evaluate self a_coef b_coef)
              (without_zero (create_bn_series self) (b_assignments poly_b)) in
          Ok (concat hits))
        (product poly_a) in
    Ok (concat found)
  else
    let* found :=
      mapM_exc (fun b_coef =>
          if zero_in (create_bn_series self b_coef 32%nat) then Ok [] else
          let* hits :=
            mapM_exc (fun a_coef => probe_match gcf_evaluate self a_coef b_coef)
              (without_zero (create_an_series self) (product poly_a)) in
          Ok (concat hits))
        (b_assignments poly_b) in
    Ok (concat found).

(** An evaluator that fails on every continued fraction. *)
Definition failing_gcf (ar : MpArith) (an bn : list Z) : exc mpf :=
  Raise ZeroDivisionError.

(** * Properties *)

(** ** Loops *)

Lemma for_each_app {A S : Type} (body : S -> A -> exc S) (l1 l2 : list A) st :
  for_each body (l1 ++ l2) st
  = let* st' := for_each body l1 st in for_each body l2 st'.
Proof.
  revert st. induction l1 as [|x l1 IH]; intros st; simpl; [done|].
  destruct (body st x); simpl; [apply IH | done].
Qed.

Lemma for_each_ext_in {A S : Type} (f g : S -> A -> exc S) (l : list A) st :
  (forall st x, x ∈ l -> f st x = g st x) ->
  for_each f l st = for_each g l st.
Proof.
  revert st. induction l as [|x l IH]; intros st Hfg; simpl; [done|].
  rewrite (Hfg st x) by left.
  destruct (g st x); simpl; [|done].
  apply IH. intros st' y Hy. apply Hfg. by right.
Qed.

Lemma for_each_map {A B S : Type} (body : S -> B -> exc S) (f : A -> B)
    (l : list A) st :
  for_each body (map f l) st = for_each (fun st x => body st (f x)) l st.
Proof.
  revert st. induction l as [|x l IH]; intros st; simpl; [done|].
  destruct (body st (f x)); simpl; [apply IH | done].
Qed.

Lemma for_each_flat_map {A B S : Type} (body : S -> B -> exc S)
    (f : A -> list B) (l : list A) st :
  for_each body (flat_map f l) st
  = for_each (fun st x => for_each body (f x) st) l st.
Proof.
  revert st. induction l as [|x l IH]; intros st; simpl; [done|].
  rewrite for_each_app.
  destruct (for_each body (f x) st); simpl; [apply IH | done].
Qed.

(** A body that never raises makes a loop that never raises. *)
Lemma for_each_total {A S : Type} (body : S -> A -> exc S) (l : list A) st :
  (forall st x, x ∈ l -> exists st', body st x = Ok st') ->
  exists st', for_each body l st = Ok st'.
Proof.
  revert st. induction l as [|x l IH]; intros st Hb; simpl; [eauto|].
  destruct (Hb st x) as [st' ->]; [left|]. simpl.
  apply IH. intros st0 y Hy. apply Hb. by right.
Qed.

(** An invariant of the state that every round keeps holds at the end. *)
Lemma for_each_invariant {A S : Type} (P : S -> Prop) (body : S -> A -> exc S)
    (l : list A) st st' :
  (forall st x st', x ∈ l -> P st -> body st x = Ok st' -> P st') ->
  P st -> for_each body l st = Ok st' -> P st'.
Proof.
  revert st. induction l as [|x l IH]; intros st Hb HP; simpl.
  - intros [= <-]. done.
  - destruct (body st x) as [st1|] eqn:E; simpl; [|done].
    apply IH.
    + intros st0 y st0' Hy. apply Hb. by right.
    + eapply Hb; [left | exact HP | exact E].
Qed.

(** ** The LHS hash table *)

Lemma elem_of_candidates top bottom m :
  m ∈ candidates top bottom
  <-> m_a m ∈ top /\ m_b m ∈ top /\ m_c m ∈ bottom /\ m_d m ∈ bottom.
Proof.
  unfold candidates. rewrite !list_elem_of_In, in_flat_map. split.
  - intros (a & Ha & H). apply in_flat_map in H as (b & Hb & H).
    apply in_flat_map in H as (c & Hc & H).
    apply in_map_iff in H as (d & <- & Hd). simpl. done.
  - destruct m as [a b c d]. simpl.
    intros (Ha & Hb & Hc & Hd).
    exists a. split; [done|]. apply in_flat_map.
    exists b. split; [done|]. apply in_flat_map.
    exists c. split; [done|]. apply in_map_iff. by exists d.
Qed.

Lemma length_flat_map_const {A B : Type} (f : A -> list B) (l : list A) n :
  (forall x, length (f x) = n) -> length (flat_map f l) = (length l * n)%nat.
Proof.
  intros Hf. induction l as [|x l IH]; simpl; [done|].
  rewrite length_app, Hf, IH. lia.
Qed.

Lemma length_candidates top bottom :
  length (candidates top bottom)
  = (length top * length top * (length bottom * length bottom))%nat.
Proof.
  unfold candidates.
  rewrite (length_flat_map_const _ _
             (length top * (length bottom * length bottom))); [lia|].
  intros a.
  rewrite (length_flat_map_const _ _ (length bottom * length bottom)); [lia|].
  intros b.
  rewrite (length_flat_map_const _ _ (length bottom)); [lia|].
  intros c. apply length_map.
Qed.

Section LHSTableProperties.
Context `{MpArith}.

Lemma lhs_body_step cv thr a b c d tbl :
  lhs_body cv thr a b c d tbl = lhs_step cv thr tbl (Matrix a b c d).
Proof.
  unfold lhs_body, lhs_step, lhs_accepts, lhs_key, lhs_quotient, lhs_value,
    lhs_numerator, lhs_denominator. simpl.
  destruct (Z.gcd (Z.gcd a b) (Z.gcd c d) =? 1); simpl; [|done].
  destruct (is_zero _ || is_zero _); simpl; [done|].
  destruct (isnan _ || isinf _); simpl; [done|].
  destruct (negb (c + d =? 0) && _); simpl; [done|].
  destruct (py_div _ thr); simpl; [|done].
  destruct (mp_int _); done.
Qed.

Lemma lhs_loop_candidates top bottom cv thr tbl :
  lhs_loop top bottom cv thr tbl
  = for_each (lhs_step cv thr) (candidates top bottom) tbl.
Proof.
  unfold lhs_loop, candidates.
  rewrite for_each_flat_map. apply for_each_ext_in. intros t1 a _.
  rewrite for_each_flat_map. apply for_each_ext_in. intros t2 b _.
  rewrite for_each_flat_map. apply for_each_ext_in. intros t3 c _.
  rewrite for_each_map. apply for_each_ext_in. intros t4 d _.
  apply lhs_body_step.
Qed.

(** What one round of the loop does to the dictionary. *)
Lemma lhs_step_inv cv thr tbl m tbl' :
  lhs_step cv thr tbl m = Ok tbl' ->
  tbl' = tbl
  \/ (lhs_accepts cv m = true
      /\ exists key, lhs_key cv thr m = Ok key
                     /\ tbl !! key = None /\ tbl' = <[key := m]> tbl).
Proof.
  unfold lhs_step. destruct (lhs_accepts cv m) eqn:Ha.
  - destruct (lhs_key cv thr m) as [key|] eqn:Hk; simpl; [|done].
    case_bool_decide as Hin.
    + intros [= <-]. by left.
    + intros [= <-]. right. split; [done|]. exists key.
      split; [done|]. split; [|done].
      by apply eq_None_not_Some.
  - intros [= <-]. by left.
Qed.

(** Every entry comes from an accepted candidate and is stored under
    the key of that candidate. *)
Lemma lhs_steps_entries cv thr l tbl0 tbl :
  for_each (lhs_step cv thr) l tbl0 = Ok tbl ->
  forall key m, tbl !! key = Some m ->
    tbl0 !! key = Some m
    \/ (m ∈ l /\ lhs_accepts cv m = true /\ lhs_key cv thr m = Ok key).
Proof.
  revert tbl0. induction l as [|x l IH]; intros tbl0; simpl.
  - intros [= <-] key m Hm. by left.
  - destruct (lhs_step cv thr tbl0 x) as [tbl1|] eqn:E; simpl; [|done].
    intros Hl key m Hm.
    destruct (IH _ Hl key m Hm) as [H1|(Hin & Ha & Hk)].
    + apply lhs_step_inv in E as [->|(Ha & k & Hk & Hnone & ->)].
      * by left.
      * destruct (decide (k = key)) as [->|Hne].
        -- rewrite lookup_insert_eq in H1. injection H1 as <-.
           right. split; [left|done].
        -- rewrite lookup_insert_ne in H1 by done. by left.
    + right. split; [by right|done].
Qed.

(** The key of every accepted candidate is in the dictionary. *)
Lemma lhs_steps_keys cv thr l tbl0 tbl :
  for_each (lhs_step cv thr) l tbl0 = Ok tbl ->
  (forall key, is_Some (tbl0 !! key) -> is_Some (tbl !! key))
  /\ (forall m, m ∈ l -> lhs_accepts cv m = true ->
        exists key, lhs_key cv thr m = Ok key /\ is_Some (tbl !! key)).
Proof.
  revert tbl0. induction l as [|x l IH]; intros tbl0; simpl.
  - intros [= <-]. split; [done|]. intros m Hm. by apply elem_of_nil in Hm.
  - destruct (lhs_step cv thr tbl0 x) as [tbl1|] eqn:E; simpl; [|done].
    intros Hl. destruct (IH _ Hl) as [Hkeep Hacc].
    assert (Hstep : forall key, is_Some (tbl0 !! key) -> is_Some (tbl1 !! key)).
    { intros key Hk.
      apply lhs_step_inv in E as [->|(_ & k & _ & _ & ->)]; [done|].
      rewrite lookup_insert_is_Some. destruct (decide (k = key)); auto. }
    split; [auto|].
    intros m Hm Ha. apply elem_of_cons in Hm as [->|Hm]; [|auto].
    unfold lhs_step in E. rewrite Ha in E.
    destruct (lhs_key cv thr x) as [key|] eqn:Hk; simpl in E; [|done].
    exists key. split; [done|]. apply Hkeep.
    case_bool_decide as Hin; injection E as <-; [done|].
    rewrite lookup_insert_eq. eauto.
Qed.

Lemma lhs_steps_size cv thr l tbl0 tbl :
  for_each (lhs_step cv thr) l tbl0 = Ok tbl ->
  (size tbl <= size tbl0 + length l)%nat.
Proof.
  revert tbl0. induction l as [|x l IH]; intros tbl0; simpl.
  - intros [= <-]. lia.
  - destruct (lhs_step cv thr tbl0 x) as [tbl1|] eqn:E; simpl; [|done].
    intros Hl. apply IH in Hl.
    apply lhs_step_inv in E as [->|(_ & k & _ & Hnone & ->)]; [lia|].
    rewrite map_size_insert_None in Hl by done. lia.
Qed.

(** The loop raises only where the key of an accepted candidate does. *)
Lemma lhs_steps_total cv thr l tbl0 :
  (forall m, m ∈ l -> lhs_accepts cv m = true ->
     exists key, lhs_key cv thr m = Ok key) ->
  exists tbl, for_each (lhs_step cv thr) l tbl0 = Ok tbl.
Proof.
  intros Hk. apply for_each_total. intros st m Hm. unfold lhs_step.
  destruct (lhs_accepts cv m) eqn:Ha; [|eauto].
  destruct (Hk m Hm Ha) as [key ->]. simpl.
  case_bool_decide; eauto.
Qed.

End LHSTableProperties.

Lemma gcd4_coprime a b c d g :
  Z.gcd (Z.gcd a b) (Z.gcd c d) = 1 ->
  Z.divide g a -> Z.divide g b -> Z.divide g c -> Z.divide g d ->
  Z.divide g 1.
Proof.
  intros Hg Ha Hb Hc Hd. rewrite <- Hg.
  apply Z.gcd_greatest; by apply Z.gcd_greatest.
Qed.

(** C1: every entry [[a, b], [c, d]] of a table that [LHSHashTable.__init__]
    built has [gcd(a, b, c, d) = 1], a denominator [c * const + d] and a
    numerator [a * const + b] that are not zero, and a ratio that is
    finite and not almost equal to the transform at [x = 1], which is
    [(a + b) / (c + d)]. *)
Theorem lhs_entries_invariant `{MpArith} top bottom cv thr tbl key m :
  LHSHashTable_init top bottom cv thr = Ok tbl ->
  s tbl !! key = Some m ->
  Z.gcd (Z.gcd (m_a m) (m_b m)) (Z.gcd (m_c m) (m_d m)) = 1
  /\ (forall g, Z.divide g (m_a m) -> Z.divide g (m_b m) ->
                Z.divide g (m_c m) -> Z.divide g (m_d m) -> Z.divide g 1)
  /\ is_zero (lhs_denominator cv m) = false
  /\ is_zero (lhs_numerator cv m) = false
  /\ isnan (lhs_value cv m) = false
  /\ isinf (lhs_value cv m) = false
  /\ (forall at_one, transform_at_one m = Ok at_one ->
        mp_almosteq (lhs_value cv m) at_one None = false).
Proof.
  unfold LHSHashTable_init. rewrite lhs_loop_candidates.
  destruct (for_each _ _ _) as [t|] eqn:E; simpl; [|done].
  intros [= <-] Hm. simpl in Hm.
  destruct (lhs_steps_entries _ _ _ _ _ E key m Hm) as [H0|(_ & Ha & _)].
  { by rewrite lookup_empty in H0. }
  unfold lhs_accepts in Ha.
  apply andb_true_iff in Ha as [Ha Hind].
  apply andb_true_iff in Ha as [Ha Hfin].
  apply andb_true_iff in Ha as [Hg Hnz].
  apply Z.eqb_eq in Hg.
  apply negb_true_iff, orb_false_iff in Hnz as [Hden Hnum].
  apply negb_true_iff, orb_false_iff in Hfin as [Hnan Hinf].
  apply negb_true_iff in Hind.
  repeat split; try done.
  - intros g. by apply gcd4_coprime.
  - intros at_one. unfold transform_at_one, py_div_int.
    destruct (m_c m + m_d m =? 0); [done|].
    intros [= <-]. exact Hind.
Qed.

Lemma lhs_entries_invariant_witness :
  LHSHashTable_init (H := Exact.arith 50) [0; 1] [-1; 0; 1]
    (Fin (1 # 4)) float_1e_10 = Ok Sample.table1
  /\ s Sample.table1 !! 39999999999 = Some (Matrix 0 1 1 0)
  /\ is_zero (lhs_denominator (H := Exact.arith 50) (Fin (1 # 4))
                (Matrix 0 1 1 0)) = false
  /\ mp_almosteq (MpArith := Exact.arith 50)
       (lhs_value (H := Exact.arith 50) (Fin (1 # 4)) (Matrix 0 1 1 0))
       (Fin 1) None = false.
Proof.
  assert (Hinit : LHSHashTable_init (H := Exact.arith 50) [0; 1] [-1; 0; 1]
                    (Fin (1 # 4)) float_1e_10 = Ok Sample.table1)
    by (vm_compute; reflexivity).
  assert (Hm : s Sample.table1 !! 39999999999 = Some (Matrix 0 1 1 0))
    by (vm_compute; reflexivity).
  destruct (lhs_entries_invariant (H := Exact.arith 50) _ _ _ _ _ _ _ Hinit Hm)
    as (_ & _ & Hden & _ & _ & _ & Hone).
  split; [exact Hinit|]. split; [exact Hm|]. split; [exact Hden|].
  apply Hone. vm_compute. reflexivity.
Defined.

(** ** The hash key *)

Lemma Qtrunc_zero_floor q : (0 <= q)%Q -> Qtrunc_zero q = Qfloor q.
Proof.
  destruct q as [n d]. unfold Qle, Qtrunc_zero, Qfloor. simpl.
  intros Hn. apply Z.quot_div_nonneg; lia.
Qed.

Lemma Qtrunc_zero_ceiling q : (q <= 0)%Q -> Qtrunc_zero q = Qceiling q.
Proof.
  destruct q as [n d]. unfold Qle, Qtrunc_zero, Qceiling, Qfloor. simpl.
  intros Hn.
  replace n with (- - n) at 1 by lia.
  rewrite Z.quot_opp_l by lia. f_equal.
  apply Z.quot_div_nonneg; lia.
Qed.

(** C2, as the code has it: the key of a stored entry, and the key the
    matching engine probes, is the quotient of the value by the threshold
    with its fractional part dropped; that is the floor of a quotient that
    is not negative and the ceiling of one that is not positive. *)
Theorem hash_key_truncates `{MpArith} :
  (forall top bottom cv thr tbl key m,
     LHSHashTable_init top bottom cv thr = Ok tbl ->
     s tbl !! key = Some m ->
     exists q, lhs_quotient cv thr m = Ok (Fin q)
               /\ key = Qtrunc_zero q
               /\ ((0 <= q)%Q -> key = Qfloor q)
               /\ ((q <= 0)%Q -> key = Qceiling q))
  /\ (forall gcf_evaluate self an bn a_coef b_coef results results',
        probe gcf_evaluate self an bn a_coef b_coef results = Ok results' ->
        exists v q, gcf_evaluate an bn = Ok v
                    /\ py_div v (e_threshold self) = Ok (Fin q)
                    /\ ((0 <= q)%Q -> Qtrunc_zero q = Qfloor q)
                    /\ ((q <= 0)%Q -> Qtrunc_zero q = Qceiling q)
                    /\ results'
                       = match getitem (hash_table self) (Qtrunc_zero q) with
                         | Some lhs => results ++ [mkMatch lhs a_coef b_coef]
                         | None => results
                         end).
Proof.
  split.
  - intros top bottom cv thr tbl key m.
    unfold LHSHashTable_init. rewrite lhs_loop_candidates.
    destruct (for_each _ _ _) as [t|] eqn:E; simpl; [|done].
    intros [= <-] Hm. simpl in Hm.
    destruct (lhs_steps_entries _ _ _ _ _ E key m Hm) as [H0|(_ & _ & Hk)].
    { by rewrite lookup_empty in H0. }
    unfold lhs_key in Hk.
    destruct (lhs_quotient cv thr m) as [[q| |]|]; simpl in Hk; try done.
    injection Hk as <-. exists q. split; [done|]. split; [done|].
    split; [apply Qtrunc_zero_floor | apply Qtrunc_zero_ceiling].
  - intros gcf_evaluate self an bn a_coef b_coef results results'.
    unfold probe.
    destruct (gcf_evaluate an bn) as [v|]; simpl; [|done].
    destruct (py_div v (e_threshold self)) as [[q| |]|] eqn:Hq; simpl;
      try done.
    intros Hr. exists v, q. split; [done|]. split; [done|].
    split; [apply Qtrunc_zero_floor|]. split; [apply Qtrunc_zero_ceiling|].
    unfold contains, getitem in *.
    destruct (s (hash_table self) !! Qtrunc_zero q) as [lhs|].
    + rewrite bool_decide_true in Hr by eauto. by injection Hr.
    + rewrite bool_decide_false in Hr by (by intros [? ?]). by injection Hr.
Qed.

Lemma hash_key_truncates_witness :
  (LHSHashTable_init (H := Exact.arith 50) [1] [-1; 0]
     (Fin (1 # 2)) (Fin 1) = Ok Sample.table_half
   /\ s Sample.table_half !! (-1) = Some (Matrix 1 1 0 (-1))
   /\ exists q,
        lhs_quotient (H := Exact.arith 50) (Fin (1 # 2)) (Fin 1)
          (Matrix 1 1 0 (-1)) = Ok (Fin q)
        /\ -1 = Qceiling q)
  /\ (exists results,
        probe (ar := Exact.arith 50) (forward_gcf (Exact.arith 50))
          Sample.small_enumerator
          (series_from_compact_poly [5] 32%nat)
          (series_from_compact_poly [-4] 32%nat) [5] [-4] [] = Ok results
        /\ results = [mkMatch (Matrix 0 1 1 0) [5] [-4]]).
Proof.
  split.
  - assert (Hinit : LHSHashTable_init (H := Exact.arith 50) [1] [-1; 0]
                      (Fin (1 # 2)) (Fin 1) = Ok Sample.table_half)
      by (vm_compute; reflexivity).
    assert (Hm : s Sample.table_half !! (-1) = Some (Matrix 1 1 0 (-1)))
      by (vm_compute; reflexivity).
    destruct (proj1 (hash_key_truncates (H := Exact.arith 50))
                _ _ _ _ _ _ _ Hinit Hm) as (q & Hq & _ & _ & Hceil).
    split; [exact Hinit|]. split; [exact Hm|].
    exists q. split; [exact Hq|].
    apply Hceil.
    vm_compute in Hq. injection Hq as <-. done.
  - exists [mkMatch (Matrix 0 1 1 0) [5] [-4]].
    assert (Hp : probe (ar := Exact.arith 50) (forward_gcf (Exact.arith 50))
                   Sample.small_enumerator
                   (series_from_compact_poly [5] 32%nat)
                   (series_from_compact_poly [-4] 32%nat) [5] [-4] []
                 = Ok [mkMatch (Matrix 0 1 1 0) [5] [-4]])
      by (vm_compute; reflexivity).
    split; [exact Hp|].
    destruct (proj2 (hash_key_truncates (H := Exact.arith 50)) _ _ _ _ _ _ _ _ Hp)
      as (v & q & Hv & Hq & _ & _ & Hres).
    reflexivity.
Defined.

(** C2, as stated, fails: with the constant [1/2] and the threshold [1]
    the candidate [[1, 1], [0, -1]] has the value [-3/2] and is stored
    under [-1], while the floor of [-3/2] is [-2].  The engine of the
    constant [1/4] and the limit 1, with its threshold [1e-10], stores
    [[0, 1], [-1, -1]], of value [-4/5], under [-7999999999], one above
    the floor of the quotient. *)
Lemma hash_key_not_floor :
  (LHSHashTable_init (H := Exact.arith 50) [1] [-1; 0]
     (Fin (1 # 2)) (Fin 1) = Ok Sample.table_half
   /\ s Sample.table_half !! (-1) = Some (Matrix 1 1 0 (-1))
   /\ lhs_quotient (H := Exact.arith 50) (Fin (1 # 2)) (Fin 1)
        (Matrix 1 1 0 (-1)) = Ok (Fin (-3 # 2))
   /\ -1 <> Qfloor (-3 # 2))
  /\ (snd (Sample.init 1) = Ok (Sample.enumerator 1)
      /\ s (hash_table (Sample.enumerator 1)) !! (-7999999999)
         = Some (Matrix 0 1 (-1) (-1))
      /\ exists q,
           lhs_quotient (H := Exact.arith enum_dps) (Sample.quarter enum_dps)
             float_1e_10 (Matrix 0 1 (-1) (-1)) = Ok (Fin q)
           /\ Qfloor q = -8000000000).
Proof.
  split.
  - split; [vm_compute; reflexivity|].
    split; [vm_compute; reflexivity|].
    split; [vm_compute; reflexivity|].
    vm_compute. discriminate.
  - split; [vm_compute; reflexivity|].
    split; [vm_compute; reflexivity|].
    eexists. split; [vm_compute; reflexivity|].
    vm_compute. reflexivity.
Qed.

(** ** Size and growth of the table *)

Lemma elem_of_py_range lo hi z : z ∈ py_range lo hi <-> lo <= z < hi.
Proof.
  unfold py_range. rewrite list_elem_of_In, in_map_iff. split.
  - intros (i & <- & Hi). apply in_seq in Hi. lia.
  - intros Hz. exists (Z.to_nat (z - lo)). split; [lia|].
    apply in_seq. lia.
Qed.

Lemma candidates_mono top1 bottom1 top2 bottom2 :
  top1 ⊆ top2 -> bottom1 ⊆ bottom2 ->
  candidates top1 bottom1 ⊆ candidates top2 bottom2.
Proof.
  intros Ht Hb m. rewrite !elem_of_candidates.
  intros (Ha & Hb' & Hc & Hd). auto 10.
Qed.

Lemma lhs_init_size `{MpArith} top bottom cv thr tbl :
  LHSHashTable_init top bottom cv thr = Ok tbl ->
  (size (s tbl) <= length (candidates top bottom))%nat.
Proof.
  unfold LHSHashTable_init. rewrite lhs_loop_candidates.
  destruct (for_each _ _ _) as [t|] eqn:E; simpl; [|done].
  intros [= <-]. simpl. apply lhs_steps_size in E.
  rewrite map_size_empty in E. lia.
Qed.

(** The keys of a table are the keys of the accepted candidates. *)
Lemma lhs_init_keys `{MpArith} top bottom cv thr tbl :
  LHSHashTable_init top bottom cv thr = Ok tbl ->
  forall key,
    key ∈ dom (s tbl)
    <-> exists m, m ∈ candidates top bottom /\ lhs_accepts cv m = true
                  /\ lhs_key cv thr m = Ok key.
Proof.
  unfold LHSHashTable_init. rewrite lhs_loop_candidates.
  destruct (for_each _ _ _) as [t|] eqn:E; simpl; [|done].
  intros [= <-] key. simpl. rewrite elem_of_dom. split.
  - intros [m Hm].
    destruct (lhs_steps_entries _ _ _ _ _ E key m Hm) as [H0|?]; [|eauto].
    by rewrite lookup_empty in H0.
  - intros (m & Hin & Ha & Hk).
    destruct (lhs_steps_keys _ _ _ _ _ E) as [_ Hacc].
    destruct (Hacc m Hin Ha) as (key' & Hk' & Hsome).
    rewrite Hk in Hk'. by injection Hk' as <-.
Qed.

Lemma lhs_init_monotone `{MpArith} top1 bottom1 top2 bottom2 cv thr t2 :
  top1 ⊆ top2 -> bottom1 ⊆ bottom2 ->
  LHSHashTable_init top2 bottom2 cv thr = Ok t2 ->
  exists t1, LHSHashTable_init top1 bottom1 cv thr = Ok t1
             /\ dom (s t1) ⊆ dom (s t2).
Proof.
  intros Ht Hb H2.
  pose proof (candidates_mono _ _ _ _ Ht Hb) as Hsub.
  assert (H1 : exists t1, LHSHashTable_init top1 bottom1 cv thr = Ok t1).
  { unfold LHSHashTable_init in *. rewrite lhs_loop_candidates in *.
    destruct (for_each _ (candidates top2 bottom2) _) as [t|] eqn:E;
      simpl in H2; [|done].
    destruct (lhs_steps_keys _ _ _ _ _ E) as [_ Hacc].
    destruct (lhs_steps_total cv thr (candidates top1 bottom1) ∅) as [t1 ->].
    - intros m Hm Ha. destruct (Hacc m (Hsub m Hm) Ha) as (key & Hk & _).
      eauto.
    - simpl. eauto. }
  destruct H1 as [t1 H1]. exists t1. split; [done|].
  intros key. rewrite (lhs_init_keys _ _ _ _ _ H1), (lhs_init_keys _ _ _ _ _ H2).
  intros (m & Hin & Ha & Hk). exists m. auto.
Qed.

(** C8: a table holds no more keys than there are candidates, and the
    keys of the table of a search limit are among the keys of the table
    of any larger limit, so the number of keys does not decrease. *)
Theorem lhs_table_monotone (arith : Z -> MpArith) (gen : series_generator)
    (sym_constant : Z -> mpf) (limit1 limit2 : Z) (w : world) e2 :
  limit1 <= limit2 ->
  snd (EnumerateOverGCF_init arith gen sym_constant limit2 EmptyString w)
  = Ok e2 ->
  (size (s (hash_table e2))
   <= length (candidates (py_range 0 (limit2 + 1))
                (py_range (- limit2) (limit2 + 1))))%nat
  /\ exists e1,
       snd (EnumerateOverGCF_init arith gen sym_constant limit1 EmptyString w)
       = Ok e1
       /\ (size (s (hash_table e1))
           <= length (candidates (py_range 0 (limit1 + 1))
                        (py_range (- limit1) (limit1 + 1))))%nat
       /\ dom (s (hash_table e1)) ⊆ dom (s (hash_table e2))
       /\ (size (s (hash_table e1)) <= size (s (hash_table e2)))%nat.
Proof.
  intros Hle. unfold EnumerateOverGCF_init.
  rewrite !bool_decide_true by done. simpl.
  destruct (LHSHashTable_init _ _ _ _) as [t2|] eqn:E2; simpl; [|done].
  intros [= <-]. simpl. split; [by eapply lhs_init_size|].
  assert (Htop : py_range 0 (limit1 + 1) ⊆ py_range 0 (limit2 + 1)).
  { intros z. rewrite !elem_of_py_range. lia. }
  assert (Hbot : py_range (- limit1) (limit1 + 1)
                 ⊆ py_range (- limit2) (limit2 + 1)).
  { intros z. rewrite !elem_of_py_range. lia. }
  destruct (lhs_init_monotone (H := arith enum_dps) _ _ _ _ _ _ _ Htop Hbot E2)
    as (t1 & E1 & Hdom).
  rewrite E1. simpl. eexists. split; [reflexivity|]. simpl.
  split; [by eapply lhs_init_size|]. split; [done|].
  rewrite <- !(size_dom (D := gset Z)). by apply subseteq_size.
Qed.

Lemma lhs_table_monotone_witness :
  snd (Sample.init 2) = Ok (Sample.enumerator 2)
  /\ exists e1,
       snd (Sample.init 1) = Ok e1
       /\ dom (s (hash_table e1)) ⊆ dom (s (hash_table (Sample.enumerator 2)))
       /\ (size (s (hash_table e1))
           <= size (s (hash_table (Sample.enumerator 2))))%nat.
Proof.
  assert (H2 : snd (Sample.init 2) = Ok (Sample.enumerator 2))
    by (vm_compute; reflexivity).
  split; [exact H2|].
  destruct (lhs_table_monotone Exact.arith series_from_compact_poly
              Sample.quarter 1 2 Sample.world0 _ ltac:(lia) H2)
    as (_ & e1 & H1 & _ & Hdom & Hsize).
  exists e1. split; [exact H1|]. split; [exact Hdom|exact Hsize].
Defined.

(** ** The first enumeration *)

(** The cached side: the assignments whose series has no zero term, each
    next to its series. *)
Lemma compress_cached (gen : series_generator) (l : list (list Z)) :
  zip (compress (map (fun c => gen c 32%nat) l)
         (map (fun an => negb (zero_in an)) (map (fun c => gen c 32%nat) l)))
      (compress l
         (map (fun an => negb (zero_in an)) (map (fun c => gen c 32%nat) l)))
  = map (fun c => (gen c 32%nat, c))
      (List.filter (fun c => negb (zero_in (gen c 32%nat))) l).
Proof.
  induction l as [|c l IH]; simpl; [done|].
  destruct (negb (zero_in (gen c 32%nat))); simpl; [by rewrite IH | exact IH].
Qed.

Lemma create_series_list_cached (gen : series_generator) coefs coef_list
    series_list series coef :
  create_series_list coefs gen = (coef_list, series_list) ->
  (series, coef) ∈ zip series_list coef_list ->
  series = gen coef 32%nat /\ zero_in series = false.
Proof.
  unfold create_series_list. intros [= <- <-].
  rewrite compress_cached, list_elem_of_In, in_map_iff.
  intros (c & [= <- <-] & Hc). apply filter_In in Hc as [_ Hc].
  split; [done|]. by apply negb_true_iff.
Qed.

Section FirstEnumeration.
Context {ar : MpArith}.

Lemma probe_inv gcf self an bn a_coef b_coef results results' :
  probe gcf self an bn a_coef b_coef results = Ok results' ->
  results' = results
  \/ exists lhs, results' = results ++ [mkMatch lhs a_coef b_coef].
Proof.
  unfold probe.
  destruct (gcf an bn) as [v|]; simpl; [|done].
  destruct (py_div v (e_threshold self)) as [q|]; simpl; [|done].
  destruct (mp_int q) as [key|]; simpl; [|done].
  destruct (contains _ _); [|intros [= <-]; by left].
  destruct (getitem _ _) as [lhs|]; intros [= <-]; eauto.
Qed.

Lemma probe_zero_free gcf self a_coef b_coef results results' :
  zero_in (create_an_series self a_coef 32%nat) = false ->
  zero_in (create_bn_series self b_coef 32%nat) = false ->
  Forall (zero_free self) results ->
  probe gcf self (create_an_series self a_coef 32%nat)
    (create_bn_series self b_coef 32%nat) a_coef b_coef results
  = Ok results' ->
  Forall (zero_free self) results'.
Proof.
  intros Ha Hb HF Hp. apply probe_inv in Hp as [->|[lhs ->]]; [done|].
  apply Forall_app. split; [done|].
  apply Forall_singleton. by split.
Qed.

Lemma first_enumeration_zero_free gcf self poly_a poly_b results :
  first_enumeration gcf self poly_a poly_b = Ok results ->
  Forall (zero_free self) results.
Proof.
  unfold first_enumeration.
  destruct (2 * number_of_elements poly_b <? number_of_elements poly_a).
  - destruct (create_series_list _ (create_bn_series self))
      as [b_coef_list bn_list] eqn:Hb.
    apply for_each_invariant; [|done].
    intros res a_coef res' _ HF.
    destruct (zero_in (create_an_series self a_coef 32%nat)) eqn:Ha.
    { by intros [= <-]. }
    apply for_each_invariant; [|done].
    intros res1 [bn b_coef] res1' Hin HF1. simpl.
    destruct (create_series_list_cached _ _ _ _ _ _ Hb Hin) as [-> Hz].
    by apply probe_zero_free.
  - destruct (create_series_list _ (create_an_series self))
      as [a_coef_list an_list] eqn:Ha.
    apply for_each_invariant; [|done].
    intros res b_coef res' _ HF.
    destruct (zero_in (create_bn_series self b_coef 32%nat)) eqn:Hb.
    { by intros [= <-]. }
    apply for_each_invariant; [|done].
    intros res1 [an a_coef] res1' Hin HF1. simpl.
    destruct (create_series_list_cached _ _ _ _ _ _ Ha Hin) as [-> Hz].
    by apply probe_zero_free.
Qed.

Lemma probe_ext gcf1 gcf2 self an bn a_coef b_coef results :
  gcf1 an bn = gcf2 an bn ->
  probe gcf1 self an bn a_coef b_coef results
  = probe gcf2 self an bn a_coef b_coef results.
Proof. unfold probe. by intros ->. Qed.

(** The evaluator is only called on series without a zero term. *)
Lemma first_enumeration_ext gcf1 gcf2 self poly_a poly_b :
  (forall an bn, zero_in an = false -> zero_in bn = false ->
                 gcf1 an bn = gcf2 an bn) ->
  first_enumeration gcf1 self poly_a poly_b
  = first_enumeration gcf2 self poly_a poly_b.
Proof.
  intros Hext. unfold first_enumeration.
  destruct (2 * number_of_elements poly_b <? number_of_elements poly_a).
  - destruct (create_series_list _ (create_bn_series self))
      as [b_coef_list bn_list] eqn:Hb.
    apply for_each_ext_in. intros res a_coef _.
    destruct (zero_in (create_an_series self a_coef 32%nat)) eqn:Ha; [done|].
    apply for_each_ext_in. intros res1 [bn b_coef] Hin. simpl.
    destruct (create_series_list_cached _ _ _ _ _ _ Hb Hin) as [-> Hz].
    apply probe_ext. by apply Hext.
  - destruct (create_series_list _ (create_an_series self))
      as [a_coef_list an_list] eqn:Ha.
    apply for_each_ext_in. intros res b_coef _.
    destruct (zero_in (create_bn_series self b_coef 32%nat)) eqn:Hb; [done|].
    apply for_each_ext_in. intros res1 [an a_coef] Hin. simpl.
    destruct (create_series_list_cached _ _ _ _ _ _ Ha Hin) as [-> Hz].
    apply probe_ext. by apply Hext.
Qed.

End FirstEnumeration.

(** C7: an assignment whose series has a zero term is dropped before any
    continued fraction is evaluated: the first enumeration does not depend
    on what the evaluator does on a series with a zero term, and neither
    the [poly_a] nor the [poly_b] assignment of a match it returns
    generates a zero term. *)
Theorem zero_terms_never_matched {ar : MpArith}
    (gcf_evaluate : list Z -> list Z -> exc mpf) (self : EnumerateOverGCF)
    (poly_a poly_b : list (list Z)) (results : list Match) :
  first_enumeration gcf_evaluate self poly_a poly_b = Ok results ->
  (forall m, m ∈ results ->
     zero_in (create_an_series self (rhs_an_poly m) 32%nat) = false
     /\ zero_in (create_bn_series self (rhs_bn_poly m) 32%nat) = false)
  /\ (forall gcf_other,
        (forall an bn, zero_in an = false -> zero_in bn = false ->
                       gcf_other an bn = gcf_evaluate an bn) ->
        first_enumeration gcf_other self poly_a poly_b = Ok results).
Proof.
  intros Hres. split.
  - intros m Hm. apply first_enumeration_zero_free in Hres.
    rewrite Forall_forall in Hres. exact (Hres m Hm).
  - intros gcf_other Hext. rewrite <- Hres. by apply first_enumeration_ext.
Qed.

Lemma zero_terms_never_matched_witness :
  exists results,
    first_enumeration (ar := Exact.arith 50) (forward_gcf (Exact.arith 50))
      Sample.small_enumerator [[5; 0]] [[0; 4]] = Ok results
    /\ results = [mkMatch (Matrix 0 1 1 0) [5] [-4]]
    /\ first_enumeration (ar := Exact.arith 50)
         (fun an bn => if zero_in an || zero_in bn then Raise ValueError
                       else forward_gcf (Exact.arith 50) an bn)
         Sample.small_enumerator [[5; 0]] [[0; 4]] = Ok results.
Proof.
  exists [mkMatch (Matrix 0 1 1 0) [5] [-4]].
  assert (Hf : first_enumeration (ar := Exact.arith 50)
                 (forward_gcf (Exact.arith 50))
                 Sample.small_enumerator [[5; 0]] [[0; 4]]
               = Ok [mkMatch (Matrix 0 1 1 0) [5] [-4]])
    by (vm_compute; reflexivity).
  split; [exact Hf|]. split; [reflexivity|].
  apply (zero_terms_never_matched _ _ _ _ _ Hf).
  intros an bn -> ->. reflexivity.
Defined.

(** ** The refinement *)

Section Refinement.
Context {ar : MpArith}.
Variable gcf_evaluate : list Z -> list Z -> exc mpf.
Variable self : EnumerateOverGCF.
Variable dps : Z.

(** The transform only raises the division error. *)
Lemma MobiusTransform_call_raises t x e :
  MobiusTransform_call t x = Raise e -> e = ZeroDivisionError.
Proof.
  unfold MobiusTransform_call, py_div. destruct x as [n|v].
  - destruct (_ =? 0); [by intros [= <-] | done].
  - destruct (is_zero _); [by intros [= <-] | done].
Qed.

Lemma refine_checks_raises t e :
  refine_checks self dps t = Raise e -> e = ZeroDivisionError.
Proof.
  unfold refine_checks.
  destruct (MobiusTransform_call t (PyMpf _)) as [val|e1] eqn:E1; simpl.
  - destruct (isinf val || isnan val); [done|].
    destruct (MobiusTransform_call t (PyInt 1)) as [t1|e2] eqn:E2; simpl.
    + destruct (mp_almosteq val t1 (Some float_0_01)); done.
    + intros [= <-]. by eapply MobiusTransform_call_raises.
  - intros [= <-]. by eapply MobiusTransform_call_raises.
Qed.

(** A match that the checks reject leaves the results as they are. *)
Lemma refine_body_rejected results r :
  refine_checks self dps (lhs_coefs r) = Raise ZeroDivisionError
  \/ refine_checks self dps (lhs_coefs r) = Ok None ->
  refine_body gcf_evaluate self dps results r = Ok results.
Proof. unfold refine_body. by intros [-> | ->]. Qed.

Lemma refine_body_checked results r val :
  refine_checks self dps (lhs_coefs r) = Ok (Some val) ->
  refine_body gcf_evaluate self dps results r
  = let* rhs :=
      gcf_evaluate (create_an_series self (rhs_an_poly r) 1000%nat)
        (create_bn_series self (rhs_bn_poly r) 1000%nat) in
    if String.eqb (mp_nstr val 100) (mp_nstr rhs 100)
    then Ok (results ++ [r]) else Ok results.
Proof. unfold refine_body. by intros ->. Qed.

Lemma refine_body_confirmed results r results' :
  refine_body gcf_evaluate self dps results r = Ok results' ->
  results' = results ++ (if confirmed gcf_evaluate self dps r then [r] else []).
Proof.
  unfold confirmed.
  destruct (refine_checks self dps (lhs_coefs r)) as [[val|]|e] eqn:E.
  - rewrite (refine_body_checked _ _ _ E).
    destruct (gcf_evaluate _ _) as [rhs|]; simpl; [|done].
    destruct (String.eqb _ _); intros [= <-]; [done|by rewrite app_nil_r].
  - rewrite refine_body_rejected by auto. intros [= <-]. by rewrite app_nil_r.
  - pose proof (refine_checks_raises _ _ E) as ->.
    rewrite refine_body_rejected by auto. intros [= <-]. by rewrite app_nil_r.
Qed.

Lemma refine_loop_filter ms acc res :
  for_each (refine_body gcf_evaluate self dps) ms acc = Ok res ->
  res = acc ++ List.filter (confirmed gcf_evaluate self dps) ms.
Proof.
  revert acc. induction ms as [|r ms IH]; intros acc; simpl.
  - intros [= <-]. by rewrite app_nil_r.
  - destruct (refine_body _ _ _ acc r) as [acc'|] eqn:E; simpl; [|done].
    intros Hres. apply IH in Hres as ->.
    apply refine_body_confirmed in E as ->.
    destruct (confirmed _ _ _ r); [by rewrite <- app_assoc | by rewrite app_nil_r].
Qed.

(** The results are the confirmed matches, in the order they came. *)
Lemma refine_results_filter ms res :
  refine_results gcf_evaluate self dps ms = Ok res ->
  res = List.filter (confirmed gcf_evaluate self dps) ms.
Proof. apply refine_loop_filter. Qed.

(** Where the loop returns, every evaluation it reached returned. *)
Lemma refine_loop_evaluated ms acc res r val :
  for_each (refine_body gcf_evaluate self dps) ms acc = Ok res ->
  r ∈ ms ->
  refine_checks self dps (lhs_coefs r) = Ok (Some val) ->
  exists rhs,
    gcf_evaluate (create_an_series self (rhs_an_poly r) 1000%nat)
      (create_bn_series self (rhs_bn_poly r) 1000%nat) = Ok rhs.
Proof.
  revert acc. induction ms as [|r0 ms IH]; intros acc; simpl.
  - intros _ Hin. by apply elem_of_nil in Hin.
  - destruct (refine_body _ _ _ acc r0) as [acc'|] eqn:E; simpl; [|done].
    intros Hres Hin Hc. apply elem_of_cons in Hin as [->|Hin]; [|eauto].
    rewrite (refine_body_checked _ _ _ Hc) in E.
    destruct (gcf_evaluate _ _) as [rhs|]; [eauto|done].
Qed.

(** A rejected match is as good as absent. *)
Lemma refine_results_skip pre r post :
  refine_checks self dps (lhs_coefs r) = Raise ZeroDivisionError
  \/ refine_checks self dps (lhs_coefs r) = Ok None ->
  refine_results gcf_evaluate self dps (pre ++ r :: post)
  = refine_results gcf_evaluate self dps (pre ++ post).
Proof.
  intros Hr. unfold refine_results. rewrite !for_each_app.
  destruct (for_each _ pre []) as [acc|]; simpl; [|done].
  by rewrite refine_body_rejected.
Qed.

End Refinement.

(** C6: a match that passes the checks of the verifier is kept if and
    only if the string of 100 digits of the value of its transform is the
    string of 100 digits of the value of its continued fraction of 1000
    terms. *)
Theorem confirmation_compares_strings {ar : MpArith}
    (gcf_evaluate : list Z -> list Z -> exc mpf) (self : EnumerateOverGCF)
    (dps : Z) (intermediate_results results : list Match) (r : Match)
    (val : mpf) :
  refine_results gcf_evaluate self dps intermediate_results = Ok results ->
  r ∈ intermediate_results ->
  refine_checks self dps (lhs_coefs r) = Ok (Some val) ->
  exists rhs,
    gcf_evaluate (create_an_series self (rhs_an_poly r) 1000%nat)
      (create_bn_series self (rhs_bn_poly r) 1000%nat) = Ok rhs
    /\ (r ∈ results <-> mp_nstr val 100 = mp_nstr rhs 100).
Proof.
  intros Hres Hin Hc.
  destruct (refine_loop_evaluated _ _ _ _ _ _ _ _ Hres Hin Hc) as [rhs Hrhs].
  exists rhs. split; [done|].
  apply refine_results_filter in Hres as ->.
  rewrite list_elem_of_In, filter_In, <- list_elem_of_In.
  unfold confirmed. rewrite Hc, Hrhs, String.eqb_eq. tauto.
Qed.

Lemma confirmation_compares_strings_witness :
  refine_results (ar := Exact.arith 4000) (forward_gcf (Exact.arith 4000))
    Sample.small_enumerator 4000
    [SampleMatches.good; SampleMatches.collision] = Ok [SampleMatches.good]
  /\ refine_checks (ar := Exact.arith 4000) Sample.small_enumerator 4000
       (lhs_coefs SampleMatches.collision) = Ok (Some (Fin 4))
  /\ exists rhs,
       forward_gcf (Exact.arith 4000)
         (create_an_series Sample.small_enumerator
            (rhs_an_poly SampleMatches.collision) 1000%nat)
         (create_bn_series Sample.small_enumerator
            (rhs_bn_poly SampleMatches.collision) 1000%nat) = Ok rhs
       /\ (SampleMatches.collision ∈ [SampleMatches.good]
           <-> mp_nstr (MpArith := Exact.arith 4000) (Fin 4) 100
               = mp_nstr (MpArith := Exact.arith 4000) rhs 100).
Proof.
  assert (Hres : refine_results (ar := Exact.arith 4000)
                   (forward_gcf (Exact.arith 4000)) Sample.small_enumerator
                   4000 [SampleMatches.good; SampleMatches.collision]
                 = Ok [SampleMatches.good]) by (vm_compute; reflexivity).
  assert (Hc : refine_checks (ar := Exact.arith 4000) Sample.small_enumerator
                 4000 (lhs_coefs SampleMatches.collision) = Ok (Some (Fin 4)))
    by (vm_compute; reflexivity).
  assert (Hin : SampleMatches.collision
                ∈ [SampleMatches.good; SampleMatches.collision])
    by (right; left).
  split; [exact Hres|]. split; [exact Hc|].
  exact (confirmation_compares_strings (ar := Exact.arith 4000)
           (forward_gcf (Exact.arith 4000)) Sample.small_enumerator 4000
           [SampleMatches.good; SampleMatches.collision] [SampleMatches.good]
           SampleMatches.collision (Fin 4) Hres Hin Hc).
Defined.

(** C9: a match whose matrix has [c + d = 0] is rejected by the verifier
    whatever the value of its transform at the constant: the evaluation of
    the transform at [x = 1] raises the division error, which the handler
    of the loop turns into a rejection. *)
Theorem pole_at_one_rejected {ar : MpArith}
    (gcf_evaluate : list Z -> list Z -> exc mpf) (self : EnumerateOverGCF)
    (dps : Z) (r : Match) :
  m_c (lhs_coefs r) + m_d (lhs_coefs r) = 0 ->
  MobiusTransform_call (lhs_coefs r) (PyInt 1) = Raise ZeroDivisionError
  /\ (forall results,
        refine_body gcf_evaluate self dps results r = Ok results)
  /\ (forall intermediate_results results,
        refine_results gcf_evaluate self dps intermediate_results = Ok results ->
        r ∉ results).
Proof.
  intros Hcd.
  assert (Hone : MobiusTransform_call (lhs_coefs r) (PyInt 1)
                 = Raise ZeroDivisionError).
  { unfold MobiusTransform_call. rewrite !Z.mul_1_r, Hcd. done. }
  assert (Hchk : refine_checks self dps (lhs_coefs r) = Raise ZeroDivisionError
                 \/ refine_checks self dps (lhs_coefs r) = Ok None).
  { unfold refine_checks.
    destruct (MobiusTransform_call (lhs_coefs r) (PyMpf _)) as [val|e] eqn:E;
      simpl.
    - destruct (isinf val || isnan val); [by right|].
      rewrite Hone. by left.
    - left. by rewrite (MobiusTransform_call_raises _ _ _ E). }
  split; [done|]. split.
  - intros results. by apply refine_body_rejected.
  - intros ms res Hres Hin.
    apply refine_results_filter in Hres as ->.
    apply list_elem_of_In, filter_In in Hin as [_ Hconf].
    unfold confirmed in Hconf. by destruct Hchk as [Hc|Hc]; rewrite Hc in Hconf.
Qed.

Lemma pole_at_one_rejected_witness :
  MobiusTransform_call (H := Exact.arith 4000)
    (lhs_coefs SampleMatches.pole_at_one) (PyMpf (Sample.quarter 4000))
  = Ok (Fin (-1 # 3))
  /\ refine_body (ar := Exact.arith 4000) (forward_gcf (Exact.arith 4000))
       Sample.small_enumerator 4000 [SampleMatches.good]
       SampleMatches.pole_at_one
     = Ok [SampleMatches.good].
Proof.
  split; [vm_compute; reflexivity|].
  apply (pole_at_one_rejected (ar := Exact.arith 4000)
           (forward_gcf (Exact.arith 4000)) Sample.small_enumerator 4000
           SampleMatches.pole_at_one).
  reflexivity.
Defined.

(** ** Failures of a single candidate *)

(** No handler surrounds the evaluation of a continued fraction. *)
Lemma probe_raises {ar : MpArith} gcf_evaluate self an bn a_coef b_coef
    results e :
  gcf_evaluate an bn = Raise e ->
  probe gcf_evaluate self an bn a_coef b_coef results = Raise e.
Proof. unfold probe. by intros ->. Qed.

Lemma refine_body_raises {ar : MpArith} gcf_evaluate self dps results r val e :
  refine_checks self dps (lhs_coefs r) = Ok (Some val) ->
  gcf_evaluate (create_an_series self (rhs_an_poly r) 1000%nat)
    (create_bn_series self (rhs_bn_poly r) 1000%nat) = Raise e ->
  refine_body gcf_evaluate self dps results r = Raise e.
Proof. intros Hc He. rewrite (refine_body_checked _ _ _ _ _ _ Hc), He. done. Qed.

(** C3, as the code has it: in the verifier, a division by zero in the
    evaluation of the transform, at the constant or at [x = 1], and a value
    of the transform that is not finite, reject the one match: the results
    so far are kept and the loop goes on as if the match were absent. *)
Theorem transform_failure_rejects_match {ar : MpArith}
    (gcf_evaluate : list Z -> list Z -> exc mpf) (self : EnumerateOverGCF)
    (dps : Z) (pre post results : list Match) (r : Match) :
  (exists e, MobiusTransform_call (lhs_coefs r) (PyMpf (const_val self dps))
             = Raise e)
  \/ (exists val,
        MobiusTransform_call (lhs_coefs r) (PyMpf (const_val self dps)) = Ok val
        /\ (isinf val || isnan val = true
            \/ exists e, MobiusTransform_call (lhs_coefs r) (PyInt 1)
                         = Raise e)) ->
  refine_body gcf_evaluate self dps results r = Ok results
  /\ refine_results gcf_evaluate self dps (pre ++ r :: post)
     = refine_results gcf_evaluate self dps (pre ++ post).
Proof.
  intros Hfail.
  assert (Hchk : refine_checks self dps (lhs_coefs r) = Raise ZeroDivisionError
                 \/ refine_checks self dps (lhs_coefs r) = Ok None).
  { unfold refine_checks.
    destruct Hfail as [[e He]|(val & Hval & [Hnf|[e He]])].
    - rewrite He. simpl. left.
      by rewrite (MobiusTransform_call_raises _ _ _ He).
    - rewrite Hval. simpl. rewrite Hnf. by right.
    - rewrite Hval. simpl. destruct (isinf val || isnan val); [by right|].
      rewrite He. simpl. left.
      by rewrite (MobiusTransform_call_raises _ _ _ He). }
  split; [by apply refine_body_rejected | by apply refine_results_skip].
Qed.

Lemma transform_failure_rejects_match_witness :
  refine_results (ar := Exact.arith 4000) (forward_gcf (Exact.arith 4000))
    Sample.small_enumerator 4000
    ([] ++ SampleMatches.pole_at_one :: [SampleMatches.good])
  = refine_results (ar := Exact.arith 4000) (forward_gcf (Exact.arith 4000))
      Sample.small_enumerator 4000 ([] ++ [SampleMatches.good]).
Proof.
  apply (transform_failure_rejects_match (ar := Exact.arith 4000)
           (forward_gcf (Exact.arith 4000)) Sample.small_enumerator 4000
           [] [SampleMatches.good] [] SampleMatches.pole_at_one).
  right. exists (Fin (-1 # 3)). split; [vm_compute; reflexivity|].
  right. exists ZeroDivisionError. vm_compute. reflexivity.
Defined.

(** C3, as stated, fails: the engine of the constant [1/4] and the limit
    1 is built, and its search on [poly_a = [[2]]] and [poly_b = [[2]]]
    evaluates the continued fraction of the series [2, 2, ...] and
    [-2, -2, ...] of 32 terms, which divides by zero; the exception leaves
    [find_hits].  An evaluator that signals the division by a NaN makes
    the conversion of the key raise instead. *)
Lemma gcf_failure_leaves_find_hits :
  snd (Sample.init 1) = Ok (Sample.enumerator 1)
  /\ forward_gcf (Exact.arith enum_dps)
       (series_from_compact_poly [2] 32%nat)
       (series_from_compact_poly [-2] 32%nat) = Raise ZeroDivisionError
  /\ Sample.hits forward_gcf 1 [[2]] [[2]] = Raise ZeroDivisionError
  /\ Sample.hits forward_gcf_nan 1 [[2]] [[2]] = Raise ValueError.
Proof. repeat split; vm_compute; reflexivity. Qed.

(** ** The partition of the work *)

Lemma py_slice_segment {A : Type} (l : list A) (lo hi : Z) :
  0 <= lo <= hi ->
  py_slice l lo (Some hi) = take (Z.to_nat (hi - lo)) (drop (Z.to_nat lo) l).
Proof.
  intros Hb. unfold py_slice, slice_bound.
  destruct (Z.ltb_spec lo 0) as [?|_]; [lia|].
  destruct (Z.ltb_spec hi 0) as [?|_]; [lia|].
  destruct (decide (Z.of_nat (length l) <= lo)) as [Hge|Hlt].
  - rewrite !drop_ge by lia. by rewrite !take_nil.
  - replace (Z.to_nat (Z.of_nat (length l) `min` (0 `max` lo)))
      with (Z.to_nat lo) by lia.
    destruct (decide (hi <= Z.of_nat (length l))) as [Hhi|Hhi].
    + f_equal. lia.
    + rewrite !take_ge; [done| |]; rewrite length_drop; lia.
Qed.

Lemma py_slice_tail {A : Type} (l : list A) (lo : Z) :
  0 <= lo -> py_slice l lo None = drop (Z.to_nat lo) l.
Proof.
  intros Hb. unfold py_slice, slice_bound.
  destruct (Z.ltb_spec lo 0) as [?|_]; [lia|].
  destruct (decide (Z.of_nat (length l) <= lo)) as [Hge|Hlt].
  - rewrite !drop_ge by lia. by rewrite take_nil.
  - replace (Z.to_nat (Z.of_nat (length l) `min` (0 `max` lo)))
      with (Z.to_nat lo) by lia.
    rewrite take_ge; [done|]. rewrite length_drop. lia.
Qed.

(** What the worker keeps where the index and the tile are not negative. *)
Lemma worker_slice_nonneg num_cores index tile row :
  0 <= index -> 0 <= tile ->
  worker_slice num_cores index tile row
  = if index =? num_cores - 1
    then drop (Z.to_nat (index * tile)) row
    else take (Z.to_nat tile) (drop (Z.to_nat (index * tile)) row).
Proof.
  intros Hi Ht. unfold worker_slice. destruct (index =? num_cores - 1).
  - apply py_slice_tail. lia.
  - rewrite py_slice_segment by lia. do 2 f_equal. lia.
Qed.

(** Where the tiles fill the range, the last worker holds a tile too. *)
Lemma worker_slice_exact num_cores index tile row :
  0 <= index < num_cores ->
  Z.of_nat (length row) = tile * num_cores ->
  worker_slice num_cores index tile row
  = take (Z.to_nat tile) (drop (Z.to_nat (index * tile)) row).
Proof.
  intros Hi Hlen. assert (0 <= tile) by nia.
  rewrite worker_slice_nonneg by lia.
  destruct (Z.eqb_spec index (num_cores - 1)) as [->|_]; [|done].
  rewrite take_ge; [done|]. rewrite length_drop. nia.
Qed.

Lemma concat_tiles {A : Type} (l : list A) (tile k : nat) :
  concat (map (fun j => take tile (drop (j * tile) l)) (seq 0 k))
  = take (k * tile) l.
Proof.
  induction k as [|k IH]; [by rewrite take_0|].
  rewrite seq_S, map_app, concat_app, IH. simpl.
  rewrite app_nil_r, take_take_drop. f_equal. lia.
Qed.

Lemma py_range_seq n : py_range 0 n = map Z.of_nat (seq 0 (Z.to_nat n)).
Proof. unfold py_range. by rewrite Z.sub_0_r. Qed.

Lemma worker_slices_cover num_cores tile row :
  0 < num_cores ->
  Z.of_nat (length row) = tile * num_cores ->
  concat (map (fun j => worker_slice num_cores j tile row)
            (py_range 0 num_cores)) = row.
Proof.
  intros Hn Hlen. rewrite py_range_seq, map_map.
  assert (0 <= tile) by nia.
  rewrite (map_ext_in _
             (fun j => take (Z.to_nat tile) (drop (j * Z.to_nat tile) row))).
  - rewrite concat_tiles. apply take_ge. nia.
  - intros j Hj. apply in_seq in Hj.
    rewrite worker_slice_exact by lia. do 2 f_equal. nia.
Qed.

(** The loop of lines 389-393 on rounds that are in range and distinct. *)
Lemma tile_loop_spec num_cores index splits_size rounds poly_a :
  NoDup rounds ->
  (forall sidx, sidx ∈ rounds ->
     (sidx < length splits_size)%nat /\ (sidx < length poly_a)%nat) ->
  exists poly_a',
    tile_loop num_cores index splits_size rounds poly_a = (poly_a', Ok tt)
    /\ length poly_a' = length poly_a
    /\ forall sidx,
         poly_a' !! sidx
         = if decide (sidx ∈ rounds)
           then worker_slice num_cores index
                  (default 0 (splits_size !! sidx)) <$> poly_a !! sidx
           else poly_a !! sidx.
Proof.
  revert poly_a. induction rounds as [|s0 rounds IH]; intros poly_a Hnd Hin.
  - exists poly_a. split; [done|]. split; [done|]. intros sidx.
    by rewrite decide_False by apply not_elem_of_nil.
  - apply NoDup_cons in Hnd as [Hs0 Hnd].
    destruct (Hin s0) as [Hs Hp]; [left|].
    apply lookup_lt_is_Some in Hs as [tile Htile].
    apply lookup_lt_is_Some in Hp as [row Hrow].
    simpl. unfold tile_step. rewrite Htile, Hrow.
    destruct (IH (<[s0 := worker_slice num_cores index tile row]> poly_a) Hnd)
      as (poly_a' & Hloop & Hlen & Hlook).
    { intros sidx Hsidx. rewrite length_insert. apply Hin. by right. }
    exists poly_a'. split; [done|]. rewrite length_insert in Hlen.
    split; [done|]. intros sidx. rewrite Hlook.
    destruct (decide (sidx = s0)) as [->|Hne].
    + rewrite decide_False by done. rewrite decide_True by left.
      rewrite list_lookup_insert_eq by (by eapply lookup_lt_Some).
      by rewrite Htile, Hrow.
    + rewrite list_lookup_insert_ne by done.
      destruct (decide (sidx ∈ rounds)) as [Hr|Hr].
      * by rewrite decide_True by (by right).
      * rewrite decide_False; [done|].
        intros [?|?]%elem_of_cons; done.
Qed.

(** C5: the worker [index] of [num_cores] receives, of every range that
    has a tile size, the slice from [index * tile] to [(index + 1) * tile],
    and the last worker the slice from [index * tile] to the end; where
    the tile size times the number of workers is the length of the range,
    the slices of the workers, one after the other, are the range, each
    of them a tile of its own. *)
Theorem worker_slices_partition (num_cores index : Z) (splits_size : list Z)
    (poly_a : list (list Z)) (sidx : nat) (tile : Z) (row : list Z) :
  0 <= index < num_cores ->
  (length splits_size <= length poly_a)%nat ->
  splits_size !! sidx = Some tile ->
  poly_a !! sidx = Some row ->
  fst (tile_loop num_cores index splits_size (seq 0 (length splits_size))
         poly_a) !! sidx
  = Some (if index =? num_cores - 1
          then py_slice row (index * tile) None
          else py_slice row (index * tile) (Some ((index + 1) * tile)))
  /\ (0 <= tile ->
      worker_slice num_cores index tile row
      = if index =? num_cores - 1
        then drop (Z.to_nat (index * tile)) row
        else take (Z.to_nat tile) (drop (Z.to_nat (index * tile)) row))
  /\ (Z.of_nat (length row) = tile * num_cores ->
      concat (map (fun j => worker_slice num_cores j tile row)
                (py_range 0 num_cores)) = row
      /\ forall j, 0 <= j < num_cores ->
           worker_slice num_cores j tile row
           = take (Z.to_nat tile) (drop (Z.to_nat (j * tile)) row)).
Proof.
  intros Hi Hlen Htile Hrow. split; [|split].
  - destruct (tile_loop_spec num_cores index splits_size
                (seq 0 (length splits_size)) poly_a)
      as (poly_a' & -> & _ & Hlook).
    { apply NoDup_seq. }
    { intros s0 Hs0. apply list_elem_of_In, in_seq in Hs0. lia. }
    simpl. rewrite Hlook, decide_True, Htile, Hrow; [done|].
    apply list_elem_of_In, in_seq. apply lookup_lt_Some in Htile. lia.
  - intros Ht. apply worker_slice_nonneg; lia.
  - intros Hex. split; [apply worker_slices_cover; [lia|done]|].
    intros j Hj. by apply worker_slice_exact.
Qed.

Lemma worker_slices_partition_witness :
  fst (tile_loop 3 1 [2] (seq 0 (length [2])) [[1; 2; 3; 4; 5; 6]; [7; 8]])
    !! 0%nat = Some [3; 4]
  /\ concat (map (fun j => worker_slice 3 j 2 [1; 2; 3; 4; 5; 6])
               (py_range 0 3)) = [1; 2; 3; 4; 5; 6].
Proof.
  destruct (worker_slices_partition 3 1 [2] [[1; 2; 3; 4; 5; 6]; [7; 8]]
              0%nat 2 [1; 2; 3; 4; 5; 6])
    as (Hslice & _ & Hcover); [lia | simpl; lia | done | done |].
  split; [exact Hslice|]. apply Hcover. reflexivity.
Defined.

(** C10: [multi_core_enumeration] changes the list [poly_a] it is given:
    every range that has a tile size is replaced by the slice of the
    worker, whatever the search does afterwards; the other ranges of
    [poly_a] and the list [poly_b] are as they were. *)
Theorem multi_core_enumeration_mutates_poly_a (arith : Z -> MpArith)
    (create_series_from_compact_poly : series_generator)
    (EfficientGCF_evaluate : MpArith -> list Z -> list Z -> exc mpf)
    (sym_constant : Z -> mpf) (lhs_search_limit : Z) (saved_hash : string)
    (st : store) (num_cores : Z) (splits_size : list Z)
    (create_an_series create_bn_series : option series_generator)
    (index : Z) (w : world) :
  (length splits_size <= length (st_poly_a st))%nat ->
  let st' :=
    store_after
      (multi_core_enumeration arith create_series_from_compact_poly
         EfficientGCF_evaluate sym_constant lhs_search_limit saved_hash st
         num_cores splits_size create_an_series create_bn_series index w) in
  length (st_poly_a st') = length (st_poly_a st)
  /\ (forall sidx tile row,
        splits_size !! sidx = Some tile ->
        st_poly_a st !! sidx = Some row ->
        st_poly_a st' !! sidx = Some (worker_slice num_cores index tile row))
  /\ (forall sidx,
        (length splits_size <= sidx)%nat ->
        st_poly_a st' !! sidx = st_poly_a st !! sidx)
  /\ st_poly_b st' = st_poly_b st.
Proof.
  intros Hlen. unfold multi_core_enumeration.
  destruct (tile_loop_spec num_cores index splits_size
              (seq 0 (length splits_size)) (st_poly_a st))
    as (poly_a' & -> & Hlen' & Hlook).
  { apply NoDup_seq. }
  { intros s0 Hs0. apply list_elem_of_In, in_seq in Hs0. lia. }
  destruct (EnumerateOverGCF_init _ _ _ _ _ _) as [w' made].
  unfold store_after. simpl. split; [done|]. split; [|split; [|done]].
  - intros sidx tile row Htile Hrow.
    rewrite Hlook, decide_True, Htile, Hrow; [done|].
    apply list_elem_of_In, in_seq. apply lookup_lt_Some in Htile. lia.
  - intros sidx Hs. rewrite Hlook, decide_False; [done|].
    intros Hin. apply list_elem_of_In, in_seq in Hin. lia.
Qed.

Lemma multi_core_enumeration_mutates_poly_a_witness :
  st_poly_a
    (store_after
       (multi_core_enumeration Exact.arith series_from_compact_poly
          forward_gcf Sample.quarter 1 EmptyString
          (mkStore [[5; 3]; [1; 2]] [[4]]) 2 [1] None None 0 Sample.world0))
    !! 0%nat = Some [5]
  /\ st_poly_a
       (store_after
          (multi_core_enumeration Exact.arith series_from_compact_poly
             forward_gcf Sample.quarter 1 EmptyString
             (mkStore [[5; 3]; [1; 2]] [[4]]) 2 [1] None None 0 Sample.world0))
       !! 1%nat = Some [1; 2].
Proof.
  destruct (multi_core_enumeration_mutates_poly_a Exact.arith
              series_from_compact_poly forward_gcf Sample.quarter 1 EmptyString
              (mkStore [[5; 3]; [1; 2]] [[4]]) 2 [1] None None 0 Sample.world0)
    as (_ & Hslice & Hrest & _); [simpl; lia|].
  split.
  - apply (Hslice 0%nat 1 [5; 3]); reflexivity.
  - rewrite (Hrest 1%nat) by (simpl; lia). reflexivity.
Defined.

(** ** The results of the workers *)

Lemma pool_map_spec func indices results :
  pool_map func indices = Ok results ->
  Forall2 (fun i r => func i = Ok r) indices results.
Proof.
  revert results. induction indices as [|i indices IH]; intros results; simpl.
  - intros [= <-]. constructor.
  - destruct (func i) as [r|] eqn:Hr; simpl; [|done].
    destruct (pool_map func indices) as [rs|]; simpl; [|done].
    intros [= <-]. constructor; auto.
Qed.

(** C4, as the code has it: one worker makes the wrapper return the list
    of results of worker 0; two workers or more make it return the list
    of the lists of results of the workers, in the order of their
    indices, not joined into one list. *)
Theorem wrapper_returns_worker_lists (arith : Z -> MpArith)
    (create_series_from_compact_poly : series_generator)
    (EfficientGCF_evaluate : MpArith -> list Z -> list Z -> exc mpf)
    (posix : bool) (sym_constant : Z -> mpf) (lhs_search_limit : Z)
    (st : store) (num_cores : Z) (manual_splits_size : option (list Z))
    (saved_hash : option string)
    (create_an_series create_bn_series : option series_generator)
    (w w' : world) (st' : store) (returned_value : wrapper_results) :
  multi_core_enumeration_wrapper arith create_series_from_compact_poly
    EfficientGCF_evaluate posix sym_constant lhs_search_limit st num_cores
    manual_splits_size saved_hash create_an_series create_bn_series w
  = (w', st', Ok returned_value) ->
  exists w1 name splits_size,
    wrapper_prepare arith create_series_from_compact_poly posix sym_constant
      lhs_search_limit saved_hash w = (w1, Ok name)
    /\ wrapper_splits (st_poly_a st) num_cores manual_splits_size
       = Ok splits_size
    /\ let worker index w0 :=
         snd (multi_core_enumeration arith create_series_from_compact_poly
                EfficientGCF_evaluate sym_constant lhs_search_limit name st
                num_cores splits_size create_an_series create_bn_series
                index w0) in
       (num_cores = 1
        /\ exists results,
             worker 0 w1 = Ok results /\ returned_value = SingleCore results)
       \/ (2 <= num_cores
           /\ exists per_worker,
                returned_value = PoolMap per_worker
                /\ Forall2 (fun index results =>
                              worker index (child_world posix w1) = Ok results)
                     (py_range 0 num_cores) per_worker).
Proof.
  unfold multi_core_enumeration_wrapper.
  destruct (wrapper_prepare _ _ _ _ _ _ _) as [w1 [name|e]]; [|done].
  destruct (wrapper_splits _ _ _) as [splits_size|e]; [|done].
  intros Hret. exists w1, name, splits_size.
  split; [done|]. split; [done|]. simpl.
  destruct (Z.eqb_spec num_cores 1) as [->|Hne].
  - left. split; [done|].
    destruct (multi_core_enumeration _ _ _ _ _ _ _ _ _ _ _ _ _)
      as [[w2 st2] [results|e]]; simpl in *; [|done].
    exists results. split; [done|]. by injection Hret as _ _ <-.
  - destruct (Z.ltb_spec num_cores 1) as [Hlt|Hge]; [done|].
    right. split; [lia|].
    injection Hret as _ _ Hret.
    destruct (pool_map _ _) as [per_worker|] eqn:Hpool; simpl in Hret; [|done].
    injection Hret as <-. exists per_worker. split; [done|].
    by apply pool_map_spec in Hpool.
Qed.

Lemma wrapper_returns_worker_lists_witness :
  snd SampleRun.two_workers
  = Ok (PoolMap [[SampleMatches.good]; [SampleMatches.other]])
  /\ exists w1 name splits_size,
       wrapper_prepare Exact.arith series_from_compact_poly true Sample.quarter
         1 None Sample.world0 = (w1, Ok name)
       /\ wrapper_splits [[5; 3]] 2 None = Ok splits_size.
Proof.
  assert (Hrun : SampleRun.two_workers
                 = (fst (fst SampleRun.two_workers),
                    snd (fst SampleRun.two_workers),
                    Ok (PoolMap [[SampleMatches.good]; [SampleMatches.other]])))
    by (vm_compute; reflexivity).
  split; [by rewrite Hrun|].
  destruct (wrapper_returns_worker_lists _ _ _ _ _ _ _ _ _ _ _ _ _ _ _ _ Hrun)
    as (w1 & name & splits_size & Hprep & Hsplits & _).
  exists w1, name, splits_size. split; [exact Hprep | exact Hsplits].
Defined.

(** C4, as stated, fails: two workers make the wrapper return the two
    lists of the workers, which is not the one list that joins them; one
    worker on the same search returns a list of matches. *)
Lemma wrapper_pool_result_not_flat :
  snd SampleRun.two_workers
  = Ok (PoolMap [[SampleMatches.good]; [SampleMatches.other]])
  /\ PoolMap [[SampleMatches.good]; [SampleMatches.other]]
     <> SingleCore (concat [[SampleMatches.good]; [SampleMatches.other]])
  /\ snd SampleRun.one_worker
     = Ok (SingleCore [SampleMatches.other; SampleMatches.good]).
Proof.
  split; [vm_compute; reflexivity|]. split; [discriminate|].
  vm_compute. reflexivity.
Qed.

(** One worker runs in the process of the caller, whose lists it leaves
    as [multi_core_enumeration] leaves them. *)
Lemma wrapper_single_core_store (arith : Z -> MpArith)
    (gen : series_generator)
    (gcf : MpArith -> list Z -> list Z -> exc mpf)
    (posix : bool) (sym_constant : Z -> mpf) (limit : Z) (st : store)
    (manual : option (list Z)) (saved_hash : option string)
    (an bn : option series_generator) (w w1 : world) name splits_size :
  wrapper_prepare arith gen posix sym_constant limit saved_hash w
  = (w1, Ok name) ->
  wrapper_splits (st_poly_a st) 1 manual = Ok splits_size ->
  store_after
    (multi_core_enumeration_wrapper arith gen gcf posix sym_constant limit st
       1 manual saved_hash an bn w)
  = store_after
      (multi_core_enumeration arith gen gcf sym_constant limit name st 1
         splits_size an bn 0 w1).
Proof.
  intros Hprep Hsplits. unfold multi_core_enumeration_wrapper.
  rewrite Hprep, Hsplits. simpl.
  by destruct (multi_core_enumeration _ _ _ _ _ _ _ _ _ _ _ _ _) as [[? ?] ?].
Qed.

(** ** Equality and persistence of tables *)

Lemma elem_of_keys t key : key ∈ keys t <-> key ∈ dom (s t).
Proof.
  unfold keys. rewrite elem_of_dom, list_elem_of_fmap. split.
  - intros ([k m] & -> & Hin). apply elem_of_map_to_list in Hin. eauto.
  - intros [m Hm]. exists (key, m). split; [done|].
    by apply elem_of_map_to_list.
Qed.

Lemma sorted_keys_eq t1 t2 :
  sorted (keys t1) = sorted (keys t2) <-> dom (s t1) = dom (s t2).
Proof.
  unfold sorted. split.
  - intros Heq. apply set_eq. intros key. rewrite <- !elem_of_keys.
    rewrite <- (merge_sort_Permutation Z.le (keys t1)).
    rewrite <- (merge_sort_Permutation Z.le (keys t2)). by rewrite Heq.
  - intros Hdom.
    apply (StronglySorted_unique Z.le);
      [apply StronglySorted_merge_sort; apply _ ..|].
    rewrite !merge_sort_Permutation.
    apply NoDup_Permutation; [apply NoDup_fst_map_to_list ..|].
    intros key. by rewrite !elem_of_keys, Hdom.
Qed.

(** X1: [__eq__] holds exactly when the thresholds are equal as numbers
    and the two tables have the same keys; the stored transformations are
    not compared, and a table whose threshold is a NaN is not equal to
    itself. *)
Theorem LHSHashTable_eq_spec (self other : LHSHashTable) :
  (LHSHashTable_eq self other = true
   <-> mpf_eqb (threshold self) (threshold other) = true
       /\ dom (s self) = dom (s other))
  /\ (LHSHashTable_eq self self = true <-> isnan (threshold self) = false)
  /\ LHSHashTable_eq self other = LHSHashTable_eq other self.
Proof.
  assert (Hspec : forall t1 t2,
            LHSHashTable_eq t1 t2 = true
            <-> mpf_eqb (threshold t1) (threshold t2) = true
                /\ dom (s t1) = dom (s t2)).
  { intros t1 t2. unfold LHSHashTable_eq.
    rewrite andb_true_iff, bool_decide_eq_true, sorted_keys_eq. done. }
  assert (Hsym : forall x y, mpf_eqb x y = mpf_eqb y x).
  { intros [a|sa|] [b|sb|]; simpl; try done.
    - destruct (Qeq_bool a b) eqn:E1, (Qeq_bool b a) eqn:E2; try done.
      + apply Qeq_bool_iff, Qeq_sym, Qeq_bool_iff in E1. congruence.
      + apply Qeq_bool_iff, Qeq_sym, Qeq_bool_iff in E2. congruence.
    - by destruct sa, sb. }
  split; [apply Hspec|]. split.
  - rewrite Hspec. destruct (threshold self) as [q|sg|]; simpl.
    + split; [done|]. intros _. split; [|done].
      apply Qeq_bool_iff. reflexivity.
    + split; [done|]. intros _. split; [by destruct sg|done].
    + split; [by intros [? _]|done].
  - destruct (LHSHashTable_eq self other) eqn:E1,
             (LHSHashTable_eq other self) eqn:E2; try done.
    + apply Hspec in E1 as [Ht Hd]. rewrite Hsym in Ht.
      assert (LHSHashTable_eq other self = true) by (apply Hspec; done).
      congruence.
    + apply Hspec in E2 as [Ht Hd]. rewrite Hsym in Ht.
      assert (LHSHashTable_eq self other = true) by (apply Hspec; done).
      congruence.
Qed.


(** X2: after [save] the file of the name holds the table, and
    [load_from] of that name returns the table that was saved when the
    module's instance was under another name; when the instance was
    already under that name, [save] leaves it as it was and [load_from]
    returns the table of the instance, not the one in the file.  In both
    cases [load_from] leaves the state as [save] left it. *)
Theorem load_after_save (self : LHSHashTable) (name : string) (w : world) :
  files (save self name w) !! name = Some self
  /\ hash_instance_name (save self name w) = name
  /\ load_from name (save self name w)
     = (save self name w,
        Ok (if bool_decide (hash_instance_name w = name)
            then hash_instance_hash w else self)).
Proof.
  unfold save, load_from. case_bool_decide as Hname; simpl.
  - rewrite lookup_insert_eq. split; [done|]. split; [done|].
    by rewrite bool_decide_true.
  - rewrite lookup_insert_eq. split; [done|]. split; [done|].
    by rewrite bool_decide_true.
Qed.



(** ** More on the table *)

Section LHSTableMore.
Context `{MpArith}.

(** The entry of a key is the first accepted candidate with that key. *)
Lemma lhs_steps_first cv thr l tbl0 tbl key m :
  for_each (lhs_step cv thr) l tbl0 = Ok tbl ->
  tbl !! key = Some m ->
  tbl0 !! key = Some m
  \/ (tbl0 !! key = None
      /\ exists before after,
           l = before ++ m :: after
           /\ lhs_accepts cv m = true
           /\ lhs_key cv thr m = Ok key
           /\ forall m', m' ∈ before -> lhs_accepts cv m' = true ->
                         lhs_key cv thr m' <> Ok key).
Proof.
  revert tbl0. induction l as [|x l IH]; intros tbl0; simpl.
  - intros [= <-] Hm. by left.
  - unfold lhs_step at 1.
    destruct (lhs_accepts cv x) eqn:Hacc; simpl.
    + destruct (lhs_key cv thr x) as [k|] eqn:Hk; simpl; [|done].
      case_bool_decide as Hin.
      * intros Hl Hm. destruct (IH _ Hl Hm) as [?|(Hnone & b & a & -> & Ha & Hkm & Hb)];
          [by left|].
        right. split; [done|]. exists (x :: b), a. split; [done|].
        split; [done|]. split; [done|].
        intros m' [->|Hm']%elem_of_cons Hacc'; [|by apply Hb].
        rewrite Hk. intros [= ->]. rewrite Hnone in Hin. by destruct Hin.
      * apply eq_None_not_Some in Hin. intros Hl Hm.
        destruct (IH _ Hl Hm) as [Hfound|(Hnone & b & a & -> & Ha & Hkm & Hb)].
        -- destruct (decide (k = key)) as [->|Hne].
           ++ rewrite lookup_insert_eq in Hfound. injection Hfound as <-.
              right. split; [done|]. exists [], l. split; [done|].
              split; [done|]. split; [done|]. intros m' Hm'.
              by apply elem_of_nil in Hm'.
           ++ rewrite lookup_insert_ne in Hfound by done. by left.
        -- destruct (decide (k = key)) as [->|Hne].
           { by rewrite lookup_insert_eq in Hnone. }
           rewrite lookup_insert_ne in Hnone by done.
           right. split; [done|]. exists (x :: b), a. split; [done|].
           split; [done|]. split; [done|].
           intros m' [->|Hm']%elem_of_cons Hacc'; [|by apply Hb].
           rewrite Hk. by intros [= ->].
    + intros Hl Hm. destruct (IH _ Hl Hm) as [?|(Hnone & b & a & -> & Ha & Hkm & Hb)];
        [by left|].
      right. split; [done|]. exists (x :: b), a. split; [done|].
      split; [done|]. split; [done|].
      intros m' [->|Hm']%elem_of_cons Hacc'; [congruence|by apply Hb].
Qed.

(** Where the loop raises, the key of an accepted candidate raised. *)
Lemma lhs_steps_raise cv thr l tbl0 e :
  for_each (lhs_step cv thr) l tbl0 = Raise e ->
  exists m, m ∈ l /\ lhs_accepts cv m = true /\ lhs_key cv thr m = Raise e.
Proof.
  revert tbl0. induction l as [|x l IH]; intros tbl0; simpl; [done|].
  destruct (lhs_step cv thr tbl0 x) as [tbl1|e1] eqn:E; simpl.
  - intros Hl. destruct (IH _ Hl) as (m & Hm & Ha & Hk).
    exists m. split; [by right|done].
  - intros [= <-]. exists x. split; [left|].
    unfold lhs_step in E. destruct (lhs_accepts cv x); [|done].
    split; [done|].
    destruct (lhs_key cv thr x) as [k|]; simpl in E; [|by injection E as ->].
    by case_bool_decide.
Qed.

(** Where no candidate is accepted the dictionary stays as it is. *)
Lemma lhs_steps_none cv thr l tbl0 :
  (forall m, m ∈ l -> lhs_accepts cv m = false) ->
  for_each (lhs_step cv thr) l tbl0 = Ok tbl0.
Proof.
  induction l as [|x l IH]; intros Hno; simpl; [done|].
  unfold lhs_step at 1. rewrite (Hno x) by left. simpl.
  apply IH. intros m Hm. apply Hno. by right.
Qed.

(** Where the key of every accepted candidate raises [e], the loop raises
    [e] as soon as there is an accepted candidate. *)
Lemma lhs_steps_all_raise cv thr l tbl0 e :
  (forall m, m ∈ l -> lhs_accepts cv m = true -> lhs_key cv thr m = Raise e) ->
  (exists m, m ∈ l /\ lhs_accepts cv m = true) ->
  for_each (lhs_step cv thr) l tbl0 = Raise e.
Proof.
  induction l as [|x l IH]; intros Hall (m & Hm & Ha); simpl.
  { by apply elem_of_nil in Hm. }
  unfold lhs_step at 1. destruct (lhs_accepts cv x) eqn:Hx; simpl.
  - by rewrite (Hall x) by (done || left).
  - apply IH.
    + intros m' Hm'. apply Hall. by right.
    + apply elem_of_cons in Hm as [->|Hm]; [congruence|eauto].
Qed.

Lemma lhs_key_raises cv thr m e :
  lhs_key cv thr m = Raise e ->
  (e = ZeroDivisionError /\ is_zero thr = true)
  \/ (e = ValueError /\ is_zero thr = false
      /\ exists q, lhs_quotient cv thr m = Ok q
                   /\ (isnan q || isinf q = true)).
Proof.
  unfold lhs_key, lhs_quotient, py_div.
  destruct (is_zero thr); simpl.
  - intros [= <-]. by left.
  - destruct (mp_div _ thr) as [q| |] eqn:Hq; simpl; [done| |].
    + intros [= <-]. right. eauto.
    + intros [= <-]. right. eauto.
Qed.

End LHSTableMore.

(** X4: on a collision of keys the first candidate wins: the entry of a
    key is the first candidate, in the order of the four loops, that
    passes the filters and has that key. *)
Theorem first_candidate_wins `{MpArith} top bottom cv thr tbl key m :
  LHSHashTable_init top bottom cv thr = Ok tbl ->
  s tbl !! key = Some m ->
  exists before after,
    candidates top bottom = before ++ m :: after
    /\ lhs_accepts cv m = true
    /\ lhs_key cv thr m = Ok key
    /\ forall m', m' ∈ before -> lhs_accepts cv m' = true ->
                  lhs_key cv thr m' <> Ok key.
Proof.
  unfold LHSHashTable_init. rewrite lhs_loop_candidates.
  destruct (for_each _ _ _) as [t|] eqn:E; simpl; [|done].
  intros [= <-] Hm. simpl in Hm.
  destruct (lhs_steps_first _ _ _ _ _ _ _ E Hm) as [H0|[_ Hfirst]]; [|done].
  by rewrite lookup_empty in H0.
Qed.

Lemma first_candidate_wins_witness :
  exists before after,
    candidates [1] [-1; 0] = before ++ Matrix 1 1 0 (-1) :: after
    /\ lhs_key (H := Exact.arith 50) (Fin (1 # 2)) (Fin 1)
         (Matrix 1 1 0 (-1)) = Ok (-1).
Proof.
  assert (Hinit : LHSHashTable_init (H := Exact.arith 50) [1] [-1; 0]
                    (Fin (1 # 2)) (Fin 1) = Ok Sample.table_half)
    by (vm_compute; reflexivity).
  assert (Hm : s Sample.table_half !! (-1) = Some (Matrix 1 1 0 (-1)))
    by (vm_compute; reflexivity).
  destruct (first_candidate_wins (H := Exact.arith 50) _ _ _ _ _ _ _ Hinit Hm)
    as (before & after & Hcand & _ & Hkey & _).
  exists before, after. split; [exact Hcand | exact Hkey].
Defined.

(** X5: a build fails in two ways only, each at a candidate that passed
    the filters: with [ZeroDivisionError], exactly when the threshold is
    zero and some candidate passes the filters, and with [ValueError],
    when the quotient of a value by the threshold is not finite.  With a
    threshold of zero and no candidate that passes, the table is empty. *)
Theorem build_failures `{MpArith} top bottom cv thr :
  (forall e, LHSHashTable_init top bottom cv thr = Raise e ->
     exists m, m ∈ candidates top bottom /\ lhs_accepts cv m = true
               /\ ((e = ZeroDivisionError /\ is_zero thr = true)
                   \/ (e = ValueError /\ is_zero thr = false
                       /\ exists q, lhs_quotient cv thr m = Ok q
                                    /\ (isnan q || isinf q = true))))
  /\ (is_zero thr = true ->
      (exists m, m ∈ candidates top bottom /\ lhs_accepts cv m = true) ->
      LHSHashTable_init top bottom cv thr = Raise ZeroDivisionError)
  /\ ((forall m, m ∈ candidates top bottom -> lhs_accepts cv m = false) ->
      LHSHashTable_init top bottom cv thr = Ok (mkLHSHashTable ∅ thr)).
Proof.
  unfold LHSHashTable_init. rewrite lhs_loop_candidates. split; [|split].
  - intros e.
    destruct (for_each _ _ _) as [t|e'] eqn:E; simpl; [done|].
    intros [= <-]. apply lhs_steps_raise in E as (m & Hm & Ha & Hk).
    exists m. split; [done|]. split; [done|]. by apply lhs_key_raises in Hk.
  - intros Hz Hex. rewrite (lhs_steps_all_raise _ _ _ _ ZeroDivisionError);
      [done| |done].
    intros m _ _. unfold lhs_key, lhs_quotient, py_div. by rewrite Hz.
  - intros Hno. by rewrite lhs_steps_none.
Qed.

Lemma build_failures_witness :
  LHSHashTable_init (H := Exact.arith 50) [1] [-1; 0] (Fin (1 # 2)) (Fin 0)
  = Raise ZeroDivisionError
  /\ LHSHashTable_init (H := Exact.arith 50) [0] [0] (Fin (1 # 2)) (Fin 0)
     = Ok (mkLHSHashTable ∅ (Fin 0)).
Proof.
  split.
  - apply (proj1 (proj2 (build_failures (H := Exact.arith 50) [1] [-1; 0]
                           (Fin (1 # 2)) (Fin 0)))); [reflexivity|].
    exists (Matrix 1 1 0 (-1)). split; [|vm_compute; reflexivity].
    apply elem_of_candidates. simpl. rewrite !elem_of_cons. tauto.
  - apply (proj2 (proj2 (build_failures (H := Exact.arith 50) [0] [0]
                           (Fin (1 # 2)) (Fin 0)))).
    intros m Hm. apply elem_of_candidates in Hm as (Ha & Hb & Hc & Hd).
    apply list_elem_of_singleton in Ha, Hb, Hc, Hd.
    destruct m as [a b c d]. simpl in *. subst. reflexivity.
Defined.

(** ** The table of an engine *)

Lemma probe_empty_table {ar : MpArith} gcf self an bn a_coef b_coef results
    results' :
  s (hash_table self) = ∅ ->
  probe gcf self an bn a_coef b_coef results = Ok results' ->
  results' = results.
Proof.
  intros Hempty. unfold probe, contains.
  destruct (gcf an bn) as [v|]; simpl; [|done].
  destruct (py_div v (e_threshold self)) as [q|]; simpl; [|done].
  destruct (mp_int q) as [key|]; simpl; [|done].
  rewrite Hempty, lookup_empty, bool_decide_false by (by intros [? ?]).
  by intros [= <-].
Qed.

Lemma first_enumeration_empty_table {ar : MpArith} gcf self poly_a poly_b
    results :
  s (hash_table self) = ∅ ->
  first_enumeration gcf self poly_a poly_b = Ok results ->
  results = [].
Proof.
  intros Hempty. unfold first_enumeration.
  destruct (_ <? _); destruct (create_series_list _ _) as [coef_list series];
    apply (for_each_invariant (fun results => results = [])); try done.
  - intros res a_coef res' _ ->. destruct (zero_in _); [by intros [= <-]|].
    apply (for_each_invariant (fun results => results = [])); [|done].
    intros res1 bn_coef res1' _ -> Hp.
    by apply probe_empty_table in Hp.
  - intros res b_coef res' _ ->. destruct (zero_in _); [by intros [= <-]|].
    apply (for_each_invariant (fun results => results = [])); [|done].
    intros res1 an_coef res1' _ -> Hp.
    by apply probe_empty_table in Hp.
Qed.

(** X6: the engine built for a search limit (no saved table) leaves the
    files and the instance of the module as they are, works with the
    threshold [1e-10], and every transformation of its table has [a] and
    [b] between 0 and the limit and [c] and [d] between minus the limit
    and the limit. *)
Theorem built_entries_in_range (arith : Z -> MpArith) (gen : series_generator)
    (sym_constant : Z -> mpf) (limit : Z) (w : world) e key m :
  snd (EnumerateOverGCF_init arith gen sym_constant limit EmptyString w)
  = Ok e ->
  s (hash_table e) !! key = Some m ->
  fst (EnumerateOverGCF_init arith gen sym_constant limit EmptyString w) = w
  /\ e_threshold e = float_1e_10
  /\ threshold (hash_table e) = float_1e_10
  /\ 0 <= m_a m <= limit /\ 0 <= m_b m <= limit
  /\ - limit <= m_c m <= limit /\ - limit <= m_d m <= limit.
Proof.
  unfold EnumerateOverGCF_init. rewrite !bool_decide_true by done. simpl.
  unfold LHSHashTable_init. rewrite lhs_loop_candidates.
  destruct (for_each _ _ _) as [t|] eqn:E; simpl; [|done].
  intros [= <-] Hm. simpl in *.
  destruct (lhs_steps_entries _ _ _ _ _ E key m Hm) as [H0|(Hin & _ & _)].
  { by rewrite lookup_empty in H0. }
  apply elem_of_candidates in Hin as (Ha & Hb & Hc & Hd).
  apply elem_of_py_range in Ha, Hb, Hc, Hd. repeat split; lia.
Qed.

Lemma built_entries_in_range_witness :
  snd (EnumerateOverGCF_init Exact.arith series_from_compact_poly
         Sample.quarter 1 EmptyString Sample.world0)
  = Ok (Sample.enumerator 1)
  /\ s (hash_table (Sample.enumerator 1)) !! (-7999999999)
     = Some (Matrix 0 1 (-1) (-1))
  /\ 0 <= m_a (Matrix 0 1 (-1) (-1)) <= 1
  /\ - 1 <= m_d (Matrix 0 1 (-1) (-1)) <= 1.
Proof.
  assert (H1 : snd (EnumerateOverGCF_init Exact.arith series_from_compact_poly
                      Sample.quarter 1 EmptyString Sample.world0)
               = Ok (Sample.enumerator 1)) by (vm_compute; reflexivity).
  assert (Hm : s (hash_table (Sample.enumerator 1)) !! (-7999999999)
               = Some (Matrix 0 1 (-1) (-1))) by (vm_compute; reflexivity).
  destruct (built_entries_in_range _ _ _ _ _ _ _ _ H1 Hm)
    as (_ & _ & _ & Ha & _ & _ & Hd).
  split; [exact H1|]. split; [exact Hm|]. split; [exact Ha | exact Hd].
Defined.

(** X7: a search limit of zero or less builds an engine with an empty
    table, whatever the constant, and no search of that engine returns a
    match. *)
Theorem nonpositive_limit_finds_nothing (arith : Z -> MpArith)
    (gen : series_generator) (sym_constant : Z -> mpf) (limit : Z)
    (w : world) :
  limit <= 0 ->
  exists e,
    snd (EnumerateOverGCF_init arith gen sym_constant limit EmptyString w)
    = Ok e
    /\ s (hash_table e) = ∅
    /\ forall (ar : MpArith) gcf poly_a poly_b results,
         first_enumeration gcf e poly_a poly_b = Ok results -> results = [].
Proof.
  intros Hlimit. unfold EnumerateOverGCF_init.
  rewrite !bool_decide_true by done. simpl.
  unfold LHSHashTable_init. rewrite lhs_loop_candidates, lhs_steps_none.
  - simpl. eexists. split; [reflexivity|]. split; [done|].
    intros ar gcf poly_a poly_b results.
    by apply first_enumeration_empty_table.
  - intros m (Ha & Hb & Hc & Hd)%elem_of_candidates.
    apply elem_of_py_range in Ha, Hb, Hc, Hd.
    unfold lhs_accepts.
    replace (m_a m) with 0 by lia. replace (m_b m) with 0 by lia.
    replace (m_c m) with 0 by lia. replace (m_d m) with 0 by lia.
    done.
Qed.

Lemma nonpositive_limit_finds_nothing_witness :
  exists e,
    snd (EnumerateOverGCF_init Exact.arith series_from_compact_poly
           Sample.quarter 0 EmptyString Sample.world0) = Ok e
    /\ s (hash_table e) = ∅.
Proof.
  destruct (nonpositive_limit_finds_nothing Exact.arith
              series_from_compact_poly Sample.quarter 0 Sample.world0)
    as (e & He & Hempty & _); [lia|].
  exists e. split; [exact He | exact Hempty].
Defined.

(** ** Assignments and their series *)

Lemma number_of_elements_acc ls acc :
  fold_left (fun res (l : list Z) => res * Z.of_nat (length l)) ls acc
  = acc * number_of_elements ls.
Proof.
  unfold number_of_elements. revert acc.
  induction ls as [|l ls IH]; intros acc; simpl; [lia|].
  rewrite (IH (acc * _)), (IH (1 * _)). lia.
Qed.

Lemma length_product ls :
  Z.of_nat (length (product ls)) = number_of_elements ls.
Proof.
  induction ls as [|l ls IH]; simpl; [done|].
  unfold number_of_elements. simpl. rewrite number_of_elements_acc.
  rewrite (length_flat_map_const _ _ (length (product ls))).
  - rewrite <- IH. lia.
  - intros x. apply length_map.
Qed.

Lemma elem_of_product ls l :
  l ∈ product ls <-> Forall2 (fun x range => x ∈ range) l ls.
Proof.
  revert l. induction ls as [|range ls IH]; intros l; simpl.
  - rewrite list_elem_of_singleton. split; [intros ->; constructor|].
    by intros ->%Forall2_nil_inv_r.
  - rewrite list_elem_of_In, in_flat_map. split.
    + intros (x & Hx & Hl). apply in_map_iff in Hl as (l' & <- & Hl').
      constructor; [by apply list_elem_of_In|].
      by apply IH, list_elem_of_In.
    + intros (x & l' & Hx & Hl' & ->)%Forall2_cons_inv_r.
      exists x. split; [by apply list_elem_of_In|].
      apply in_map_iff. exists l'. split; [done|].
      by apply list_elem_of_In, IH.
Qed.

Lemma product_opp ls :
  product (map (map Z.opp) ls) = map (map Z.opp) (product ls).
Proof.
  induction ls as [|l ls IH]; simpl; [done|].
  rewrite IH. clear IH. induction l as [|x l IHl]; simpl; [done|].
  rewrite map_app, IHl, !map_map. done.
Qed.

Lemma product_nil_iff ls : product ls = [] <-> [] ∈ ls.
Proof.
  induction ls as [|l ls IH]; simpl.
  - split; [done | by intros ?%elem_of_nil].
  - rewrite elem_of_cons, <- IH. split.
    + intros Hnil. destruct l as [|x l]; [by left|]. right.
      simpl in Hnil. apply app_eq_nil in Hnil as [Hnil _].
      by apply map_eq_nil in Hnil.
    + intros [<- | Hnil]; [done|]. rewrite Hnil.
      induction l as [|x l IHl]; simpl; done.
Qed.

(** X8: [__number_of_elements] counts the assignments that
    [itertools.product] yields: [size_a] is the number of assignments of
    [poly_a] and [size_b] the number of assignments of [poly_b] and of its
    negation together; an assignment is yielded exactly when it takes one
    coefficient from each range, in order. *)
Theorem number_of_elements_counts (poly_a poly_b : list (list Z)) :
  number_of_elements poly_a = Z.of_nat (length (product poly_a))
  /\ 2 * number_of_elements poly_b = Z.of_nat (length (b_assignments poly_b))
  /\ (forall a_coef,
        a_coef ∈ product poly_a
        <-> Forall2 (fun x range => x ∈ range) a_coef poly_a)
  /\ (forall b_coef,
        b_coef ∈ b_assignments poly_b
        <-> Forall2 (fun x range => x ∈ range) b_coef poly_b
            \/ Forall2 (fun x range => x ∈ range) (map Z.opp b_coef) poly_b)
  /\ (number_of_elements poly_a = 0 <-> [] ∈ poly_a).
Proof.
  split; [by rewrite length_product|]. split.
  { unfold b_assignments.
    rewrite length_app, product_opp, length_map, <- length_product. lia. }
  split; [apply elem_of_product|]. split.
  - intros b_coef. unfold b_assignments.
    rewrite elem_of_app, product_opp, !elem_of_product.
    rewrite list_elem_of_In, in_map_iff.
    split; (intros [?|Hneg]; [by left|right]).
    + destruct Hneg as (l & <- & Hl).
      rewrite map_map, (map_ext _ id), map_id by (intros; simpl; lia).
      by apply elem_of_product, list_elem_of_In.
    + exists (map Z.opp b_coef). split.
      * rewrite map_map, (map_ext _ id), map_id by (intros; simpl; lia). done.
      * by apply list_elem_of_In, elem_of_product.
  - rewrite <- length_product, <- product_nil_iff.
    destruct (product poly_a); simpl; [done|]. split; [lia|done].
Qed.

Lemma compress_filter {A : Type} (p : A -> bool) (l : list A) :
  compress l (map p l) = List.filter p l.
Proof.
  induction l as [|x l IH]; simpl; [done|].
  destruct (p x); by rewrite IH.
Qed.

Lemma compress_map_filter {A B : Type} (g : A -> B) (p : B -> bool)
    (l : list A) :
  compress (map g l) (map p (map g l))
  = map g (List.filter (fun x => p (g x)) l).
Proof.
  induction l as [|x l IH]; simpl; [done|].
  destruct (p (g x)); simpl; by rewrite IH.
Qed.

(** X9: [__create_series_list] keeps, in their order, the assignments
    whose 32 terms have no zero, and returns next to them the series they
    generate: the two lists have the same length and the series at an
    index is the series of the assignment at that index. *)
Theorem create_series_list_aligned (gen : series_generator)
    (coefficient_iter : list (list Z)) :
  fst (create_series_list coefficient_iter gen)
  = List.filter (fun c => negb (zero_in (gen c 32%nat))) coefficient_iter
  /\ snd (create_series_list coefficient_iter gen)
     = map (fun c => gen c 32%nat) (fst (create_series_list coefficient_iter gen))
  /\ length (snd (create_series_list coefficient_iter gen))
     = length (fst (create_series_list coefficient_iter gen))
  /\ Forall (fun an => zero_in an = false)
       (snd (create_series_list coefficient_iter gen)).
Proof.
  unfold create_series_list. simpl.
  rewrite map_map, compress_filter.
  rewrite <- (map_map (fun c => gen c 32%nat) (fun an => negb (zero_in an))).
  rewrite compress_map_filter.
  split; [done|]. split; [done|]. split; [by rewrite length_map|].
  apply Forall_forall. intros an Han.
  apply list_elem_of_In, in_map_iff in Han as (c & <- & Hc).
  apply filter_In in Hc as [_ Hc]. by apply negb_true_iff.
Qed.

(** ** Loops that collect *)

Lemma mapM_exc_Ok {A B : Type} (f : A -> exc B) (l : list A) ys :
  mapM_exc f l = Ok ys <-> Forall2 (fun x y => f x = Ok y) l ys.
Proof.
  revert ys. induction l as [|x l IH]; intros ys; simpl.
  - split; [intros [= <-]; constructor | by intros ->%Forall2_nil_inv_l].
  - split.
    + destruct (f x) as [y|] eqn:Hy; simpl; [|done].
      destruct (mapM_exc f l) as [ys'|]; simpl; [|done].
      intros [= <-]. constructor; [done|]. by apply IH.
    + intros (y & ys' & Hy & Hys & ->)%Forall2_cons_inv_l.
      apply IH in Hys. by rewrite Hy, Hys.
Qed.

Lemma mapM_exc_total {A B : Type} (f : A -> exc B) (l : list A) :
  (exists ys, mapM_exc f l = Ok ys) <-> forall x, x ∈ l -> exists y, f x = Ok y.
Proof.
  induction l as [|x l IH]; simpl.
  - split; [intros _ x Hx; by apply elem_of_nil in Hx | eauto].
  - split.
    + intros [ys Hys] x' Hx'.
      destruct (f x) as [y|] eqn:Hy; simpl in Hys; [|done].
      destruct (mapM_exc f l) as [ys'|]; simpl in Hys; [|done].
      apply elem_of_cons in Hx' as [->|Hx']; [eauto|].
      apply (proj1 IH); eauto.
    + intros Hall. destruct (Hall x) as [y ->]; [left|]. simpl.
      destruct (proj2 IH) as [ys ->]; [|simpl; eauto].
      intros x' Hx'. apply Hall. by right.
Qed.

Lemma mapM_exc_concat {A B : Type} (f : A -> exc (list B)) (l : list A) yss m :
  mapM_exc f l = Ok yss ->
  m ∈ concat yss <-> exists x ys, x ∈ l /\ f x = Ok ys /\ m ∈ ys.
Proof.
  revert yss. induction l as [|x l IH]; intros yss; simpl.
  - intros [= <-]. simpl. split; [by intros ?%elem_of_nil|].
    intros (x & ys & Hx & _). by apply elem_of_nil in Hx.
  - destruct (f x) as [y|] eqn:Hy; simpl; [|done].
    destruct (mapM_exc f l) as [ys'|]; simpl; [|done].
    intros [= <-]. simpl. rewrite elem_of_app, (IH ys') by done. split.
    + intros [Hm|(x' & ys & Hx' & Hf & Hm)].
      * exists x, y. split; [left|done].
      * exists x', ys. split; [by right|done].
    + intros (x' & ys & [->|Hx']%elem_of_cons & Hf & Hm).
      * left. congruence.
      * right. eauto.
Qed.

Lemma mapM_exc_concat_length {A B : Type} (f : A -> exc (list B)) (l : list A)
    yss n :
  (forall x ys, f x = Ok ys -> (length ys <= n)%nat) ->
  mapM_exc f l = Ok yss ->
  (length (concat yss) <= length l * n)%nat.
Proof.
  intros Hn. revert yss. induction l as [|x l IH]; intros yss; simpl.
  - intros [= <-]. simpl. lia.
  - destruct (f x) as [y|] eqn:Hy; simpl; [|done].
    destruct (mapM_exc f l) as [ys'|]; simpl; [|done].
    intros [= <-]. simpl. rewrite length_app.
    specialize (IH ys' eq_refl). specialize (Hn x y Hy). lia.
Qed.

(** A loop whose rounds append what a function of the element returns. *)
Lemma for_each_collect {A B : Type} (f : A -> exc (list B))
    (body : list B -> A -> exc (list B)) (l : list A) st :
  (forall st x, x ∈ l -> body st x = let* ys := f x in Ok (st ++ ys)) ->
  for_each body l st = let* yss := mapM_exc f l in Ok (st ++ concat yss).
Proof.
  revert st. induction l as [|x l IH]; intros st Hbody; simpl.
  - by rewrite app_nil_r.
  - rewrite Hbody by left. destruct (f x) as [y|]; simpl; [|done].
    rewrite IH by (intros st' x' Hx'; apply Hbody; by right).
    destruct (mapM_exc f l) as [ys|]; simpl; [|done].
    by rewrite app_assoc.
Qed.

(** ** The first enumeration, pair by pair *)

Section Pairs.
Context {ar : MpArith}.
Variable gcf : list Z -> list Z -> exc mpf.
Variable self : EnumerateOverGCF.

Lemma probe_collect a_coef b_coef results :
  probe gcf self (create_an_series self a_coef 32%nat)
    (create_bn_series self b_coef 32%nat) a_coef b_coef results
  = let* hits := probe_match gcf self a_coef b_coef in Ok (results ++ hits).
Proof.
  unfold probe, probe_match, contains, getitem.
  destruct (gcf _ _) as [v|]; simpl; [|done].
  destruct (py_div v (e_threshold self)) as [q|]; simpl; [|done].
  destruct (mp_int q) as [key|]; simpl; [|done].
  destruct (s (hash_table self) !! key) as [lhs|].
  - by rewrite bool_decide_true by eauto.
  - rewrite bool_decide_false by (by intros [? ?]). by rewrite app_nil_r.
Qed.

Lemma cached_pairs (gen : series_generator) coefs :
  zip (snd (create_series_list coefs gen)) (fst (create_series_list coefs gen))
  = map (fun c => (gen c 32%nat, c)) (without_zero gen coefs).
Proof. unfold create_series_list. simpl. apply compress_cached. Qed.

Lemma first_enumeration_collects poly_a poly_b :
  first_enumeration gcf self poly_a poly_b
  = first_enumeration_pairs gcf self poly_a poly_b.
Proof.
  unfold first_enumeration, first_enumeration_pairs.
  fold (b_assignments poly_b).
  destruct (_ <? _).
  - pose proof (cached_pairs (create_bn_series self) (b_assignments poly_b))
      as Hzip.
    destruct (create_series_list _ _) as [b_coef_list bn_list].
    simpl in Hzip. rewrite Hzip.
    erewrite for_each_collect; [reflexivity|].
    intros res a_coef _. simpl.
    destruct (zero_in _); simpl; [by rewrite app_nil_r|].
    rewrite for_each_map.
    erewrite (for_each_collect (fun b_coef => probe_match gcf self a_coef b_coef)).
    + by destruct (mapM_exc _ _).
    + intros res1 b_coef _. simpl. apply probe_collect.
  - pose proof (cached_pairs (create_an_series self) (product poly_a)) as Hzip.
    destruct (create_series_list _ _) as [a_coef_list an_list].
    simpl in Hzip. rewrite Hzip.
    erewrite for_each_collect; [reflexivity|].
    intros res b_coef _. simpl.
    destruct (zero_in _); simpl; [by rewrite app_nil_r|].
    rewrite for_each_map.
    erewrite (for_each_collect (fun a_coef => probe_match gcf self a_coef b_coef)).
    + by destruct (mapM_exc _ _).
    + intros res1 a_coef _. simpl. apply probe_collect.
Qed.

Lemma elem_of_without_zero (gen : series_generator) coefs c :
  c ∈ without_zero gen coefs <-> c ∈ coefs /\ zero_in (gen c 32%nat) = false.
Proof.
  unfold without_zero.
  by rewrite list_elem_of_In, filter_In, negb_true_iff, <- list_elem_of_In.
Qed.

Lemma probe_match_inv a_coef b_coef hits m :
  probe_match gcf self a_coef b_coef = Ok hits ->
  m ∈ hits ->
  rhs_an_poly m = a_coef /\ rhs_bn_poly m = b_coef /\ hits = [m].
Proof.
  unfold probe_match.
  destruct (gcf _ _) as [v|]; simpl; [|done].
  destruct (py_div v (e_threshold self)) as [q|]; simpl; [|done].
  destruct (mp_int q) as [key|]; simpl; [|done].
  destruct (getitem _ _) as [lhs|]; intros [= <-].
  - by intros ->%list_elem_of_singleton.
  - by intros ?%elem_of_nil.
Qed.

Lemma probe_match_length a_coef b_coef hits :
  probe_match gcf self a_coef b_coef = Ok hits -> (length hits <= 1)%nat.
Proof.
  unfold probe_match.
  destruct (gcf _ _) as [v|]; simpl; [|done].
  destruct (py_div v (e_threshold self)) as [q|]; simpl; [|done].
  destruct (mp_int q) as [key|]; simpl; [|done].
  destruct (getitem _ _) as [lhs|]; intros [= <-]; simpl; lia.
Qed.

End Pairs.

(** Two nested traversals that collect: what they return and when. *)
Lemma nested_mapM {O I B : Type} (skip : O -> bool)
    (g : O -> I -> exc (list B)) (lo : list O) (li : list I) :
  let F := fun o => if skip o then Ok []
                    else let* hits := mapM_exc (g o) li in Ok (concat hits) in
  (forall found, mapM_exc F lo = Ok found ->
     forall m, m ∈ concat found
               <-> exists o i hits, o ∈ lo /\ skip o = false /\ i ∈ li
                                    /\ g o i = Ok hits /\ m ∈ hits)
  /\ ((exists found, mapM_exc F lo = Ok found)
      <-> forall o i, o ∈ lo -> skip o = false -> i ∈ li ->
                      exists hits, g o i = Ok hits)
  /\ (forall found n,
        (forall o i hits, g o i = Ok hits -> (length hits <= n)%nat) ->
        mapM_exc F lo = Ok found ->
        (length (concat found) <= length lo * (length li * n))%nat).
Proof.
  intros F. split; [|split].
  - intros found Hfound m. rewrite (mapM_exc_concat _ _ _ _ Hfound). split.
    + intros (o & ys & Ho & Hys & Hm). unfold F in Hys.
      destruct (skip o) eqn:Hskip.
      { injection Hys as <-. by apply elem_of_nil in Hm. }
      destruct (mapM_exc (g o) li) as [hits|] eqn:Hhits; simpl in Hys; [|done].
      injection Hys as <-.
      apply (mapM_exc_concat _ _ _ _ Hhits) in Hm as (i & h & Hi & Hg & Hm).
      exists o, i, h. done.
    + intros (o & i & hits & Ho & Hskip & Hi & Hg & Hm).
      apply (proj1 (mapM_exc_Ok _ _ _)) in Hfound as Hall.
      apply list_elem_of_lookup in Ho as [k Hk].
      destruct (Forall2_lookup_l _ _ _ _ _ Hall Hk) as (ys & _ & Hys).
      exists o, ys. split; [by eapply list_elem_of_lookup_2|]. split; [done|].
      unfold F in Hys. rewrite Hskip in Hys.
      destruct (mapM_exc (g o) li) as [hs|] eqn:Hhs; simpl in Hys; [|done].
      injection Hys as <-. apply (mapM_exc_concat _ _ _ _ Hhs). eauto.
  - rewrite mapM_exc_total. split.
    + intros Hall o i Ho Hskip Hi. destruct (Hall o Ho) as [ys Hys].
      unfold F in Hys. rewrite Hskip in Hys.
      destruct (mapM_exc (g o) li) as [hs|] eqn:Hhs; simpl in Hys; [|done].
      assert (Hex : exists ys, mapM_exc (g o) li = Ok ys) by eauto.
      rewrite mapM_exc_total in Hex. auto.
    + intros Hall o Ho. unfold F. destruct (skip o) eqn:Hskip; [eauto|].
      destruct (proj2 (mapM_exc_total (g o) li)) as [hs ->]; [|simpl; eauto].
      intros i Hi. by apply Hall.
  - intros found n Hn. apply mapM_exc_concat_length.
    intros o ys. unfold F. destruct (skip o); [intros [= <-]; simpl; lia|].
    destruct (mapM_exc (g o) li) as [hs|] eqn:Hhs; simpl; [|done].
    intros [= <-]. eapply mapM_exc_concat_length; [|done]. eauto.
Qed.

Lemma bind_concat_Ok {B : Type} (m : exc (list (list B))) (results : list B) :
  (let* found := m in Ok (concat found)) = Ok results
  <-> exists found, m = Ok found /\ results = concat found.
Proof.
  destruct m as [found|e]; simpl.
  - split; [intros [= <-]; eauto | by intros (? & [= <-] & ->)].
  - split; [done | by intros (? & ? & _)].
Qed.

(** The matches of the first enumeration, whichever side is cached. *)
Lemma first_enumeration_spec {ar : MpArith} gcf self poly_a poly_b :
  (forall results,
     first_enumeration gcf self poly_a poly_b = Ok results ->
     forall m, m ∈ results
               <-> exists a_coef b_coef hits,
                     a_coef ∈ product poly_a /\ b_coef ∈ b_assignments poly_b
                     /\ zero_in (create_an_series self a_coef 32%nat) = false
                     /\ zero_in (create_bn_series self b_coef 32%nat) = false
                     /\ probe_match gcf self a_coef b_coef = Ok hits
                     /\ m ∈ hits)
  /\ ((exists results, first_enumeration gcf self poly_a poly_b = Ok results)
      <-> forall a_coef b_coef,
            a_coef ∈ product poly_a -> b_coef ∈ b_assignments poly_b ->
            zero_in (create_an_series self a_coef 32%nat) = false ->
            zero_in (create_bn_series self b_coef 32%nat) = false ->
            exists hits, probe_match gcf self a_coef b_coef = Ok hits)
  /\ (forall results,
        first_enumeration gcf self poly_a poly_b = Ok results ->
        (length results
         <= length (product poly_a) * length (b_assignments poly_b))%nat).
Proof.
  rewrite first_enumeration_collects. unfold first_enumeration_pairs.
  destruct (_ <? _).
  - destruct (nested_mapM
                (fun a_coef => zero_in (create_an_series self a_coef 32%nat))
                (fun a_coef b_coef => probe_match gcf self a_coef b_coef)
                (product poly_a)
                (without_zero (create_bn_series self) (b_assignments poly_b)))
      as (Hmem & Hok & Hlen).
    split; [|split].
    + intros results (found & Hfound & ->)%bind_concat_Ok m.
      rewrite (Hmem _ Hfound). split.
      * intros (a & b & hits & Ha & Hza & (Hb & Hzb)%elem_of_without_zero & Hp & Hm).
        exists a, b, hits. done.
      * intros (a & b & hits & Ha & Hb & Hza & Hzb & Hp & Hm).
        exists a, b, hits. rewrite elem_of_without_zero. done.
    + split.
      * intros [results (found & Hfound & _)%bind_concat_Ok] a b Ha Hb Hza Hzb.
        apply (proj1 Hok); [eauto|done..|]. by apply elem_of_without_zero.
      * intros Hall. destruct (proj2 Hok) as [found Hfound].
        { intros a b Ha Hza (Hb & Hzb)%elem_of_without_zero. by apply Hall. }
        exists (concat found). apply bind_concat_Ok. eauto.
    + intros results (found & Hfound & ->)%bind_concat_Ok.
      specialize (Hlen found 1%nat (fun a b => probe_match_length gcf self a b)
                    Hfound).
      pose proof (filter_length_le
                    (fun c => negb (zero_in (create_bn_series self c 32%nat)))
                    (b_assignments poly_b)) as Hle.
      unfold without_zero in Hlen. nia.
  - destruct (nested_mapM
                (fun b_coef => zero_in (create_bn_series self b_coef 32%nat))
                (fun b_coef a_coef => probe_match gcf self a_coef b_coef)
                (b_assignments poly_b)
                (without_zero (create_an_series self) (product poly_a)))
      as (Hmem & Hok & Hlen).
    split; [|split].
    + intros results (found & Hfound & ->)%bind_concat_Ok m.
      rewrite (Hmem _ Hfound). split.
      * intros (b & a & hits & Hb & Hzb & (Ha & Hza)%elem_of_without_zero & Hp & Hm).
        exists a, b, hits. done.
      * intros (a & b & hits & Ha & Hb & Hza & Hzb & Hp & Hm).
        exists b, a, hits. rewrite elem_of_without_zero. done.
    + split.
      * intros [results (found & Hfound & _)%bind_concat_Ok] a b Ha Hb Hza Hzb.
        apply (proj1 Hok); [eauto|done..|]. by apply elem_of_without_zero.
      * intros Hall. destruct (proj2 Hok) as [found Hfound].
        { intros b a Hb Hzb (Ha & Hza)%elem_of_without_zero. by apply Hall. }
        exists (concat found). apply bind_concat_Ok. eauto.
    + intros results (found & Hfound & ->)%bind_concat_Ok.
      specialize (Hlen found 1%nat
                    (fun b a => probe_match_length gcf self a b) Hfound).
      pose proof (filter_length_le
                    (fun c => negb (zero_in (create_an_series self c 32%nat)))
                    (product poly_a)) as Hle.
      unfold without_zero in Hlen. nia.
Qed.

(** X10: the first enumeration returns exactly when the probe of every
    pair of an assignment of [poly_a] and an assignment of [poly_b] or of
    its negation, both without a zero among their 32 terms, returns; its
    matches are then the matches of those probes, whichever side the
    engine caches: a match is returned if and only if its two assignments
    are such a pair and the probe of the pair finds it. *)
Theorem first_enumeration_matches {ar : MpArith}
    (gcf_evaluate : list Z -> list Z -> exc mpf) (self : EnumerateOverGCF)
    (poly_a poly_b : list (list Z)) :
  (forall results,
     first_enumeration gcf_evaluate self poly_a poly_b = Ok results ->
     forall m,
       m ∈ results
       <-> rhs_an_poly m ∈ product poly_a
           /\ rhs_bn_poly m ∈ b_assignments poly_b
           /\ zero_free self m
           /\ probe_match gcf_evaluate self (rhs_an_poly m) (rhs_bn_poly m)
              = Ok [m])
  /\ ((exists results,
         first_enumeration gcf_evaluate self poly_a poly_b = Ok results)
      <-> forall a_coef b_coef,
            a_coef ∈ product poly_a -> b_coef ∈ b_assignments poly_b ->
            zero_in (create_an_series self a_coef 32%nat) = false ->
            zero_in (create_bn_series self b_coef 32%nat) = false ->
            exists hits, probe_match gcf_evaluate self a_coef b_coef = Ok hits).
Proof.
  destruct (first_enumeration_spec gcf_evaluate self poly_a poly_b)
    as (Hmem & Hok & _).
  split; [|exact Hok].
  intros results Hres m. rewrite (Hmem _ Hres). unfold zero_free. split.
  - intros (a & b & hits & Ha & Hb & Hza & Hzb & Hp & Hm).
    destruct (probe_match_inv _ _ _ _ _ _ Hp Hm) as (-> & -> & ->). done.
  - intros (Ha & Hb & [Hza Hzb] & Hp).
    exists (rhs_an_poly m), (rhs_bn_poly m), [m].
    repeat (split; [done|]). left.
Qed.

Lemma first_enumeration_matches_witness :
  first_enumeration (ar := Exact.arith 50) (forward_gcf (Exact.arith 50))
    Sample.small_enumerator [[5; 0]] [[0; 4]] = Ok [SampleMatches.good]
  /\ probe_match (ar := Exact.arith 50) (forward_gcf (Exact.arith 50))
       Sample.small_enumerator (rhs_an_poly SampleMatches.good)
       (rhs_bn_poly SampleMatches.good) = Ok [SampleMatches.good].
Proof.
  assert (Hf : first_enumeration (ar := Exact.arith 50)
                 (forward_gcf (Exact.arith 50))
                 Sample.small_enumerator [[5; 0]] [[0; 4]]
               = Ok [SampleMatches.good]) by (vm_compute; reflexivity).
  split; [exact Hf|].
  apply (proj1 (first_enumeration_matches (ar := Exact.arith 50)
                  (forward_gcf (Exact.arith 50)) Sample.small_enumerator
                  [[5; 0]] [[0; 4]]) _ Hf SampleMatches.good).
  left.
Defined.

(** X11: the first enumeration returns at most [num_iterations] matches,
    one for each pair of assignments at most:
    [2 * number_of_elements(poly_b) * number_of_elements(poly_a)]. *)
Theorem matches_bounded {ar : MpArith}
    (gcf_evaluate : list Z -> list Z -> exc mpf) (self : EnumerateOverGCF)
    (poly_a poly_b : list (list Z)) (results : list Match) :
  first_enumeration gcf_evaluate self poly_a poly_b = Ok results ->
  Z.of_nat (length results)
  <= 2 * number_of_elements poly_b * number_of_elements poly_a.
Proof.
  intros Hres.
  destruct (first_enumeration_spec gcf_evaluate self poly_a poly_b)
    as (_ & _ & Hlen).
  specialize (Hlen _ Hres). rewrite <- !length_product.
  unfold b_assignments in Hlen.
  rewrite length_app, product_opp, length_map in Hlen. nia.
Qed.

Lemma matches_bounded_witness :
  first_enumeration (ar := Exact.arith 50) (forward_gcf (Exact.arith 50))
    Sample.small_enumerator [[5; 0]] [[0; 4]] = Ok [SampleMatches.good]
  /\ Z.of_nat (length [SampleMatches.good])
     <= 2 * number_of_elements [[0; 4]] * number_of_elements [[5; 0]].
Proof.
  assert (Hf : first_enumeration (ar := Exact.arith 50)
                 (forward_gcf (Exact.arith 50))
                 Sample.small_enumerator [[5; 0]] [[0; 4]]
               = Ok [SampleMatches.good]) by (vm_compute; reflexivity).
  split; [exact Hf|].
  exact (matches_bounded (ar := Exact.arith 50) _ _ _ _ _ Hf).
Defined.

(** X12: where one of the ranges of [poly_a] or of [poly_b] is empty,
    [find_hits] returns no result and evaluates no continued fraction:
    it returns the empty list with any evaluator, also with one that
    fails on every call. *)
Theorem empty_range_finds_nothing (arith : Z -> MpArith)
    (EfficientGCF_evaluate : MpArith -> list Z -> list Z -> exc mpf)
    (self : EnumerateOverGCF) (poly_a poly_b : list (list Z)) :
  [] ∈ poly_a \/ [] ∈ poly_b ->
  first_enumeration (ar := arith enum_dps)
    (EfficientGCF_evaluate (arith enum_dps)) self poly_a poly_b = Ok []
  /\ find_hits arith EfficientGCF_evaluate self poly_a poly_b = Ok [].
Proof.
  intros Hempty.
  assert (Hnil : product poly_a = [] \/ b_assignments poly_b = []).
  { destruct Hempty as [Ha|Hb]; [left; by apply product_nil_iff|right].
    apply product_nil_iff in Hb. unfold b_assignments.
    by rewrite product_opp, Hb. }
  destruct (first_enumeration_spec (ar := arith enum_dps)
              (EfficientGCF_evaluate (arith enum_dps)) self poly_a poly_b)
    as (_ & Hok & Hlen).
  destruct (proj2 Hok) as [results Hres].
  { intros a b Ha Hb. destruct Hnil as [Hnil|Hnil].
    - rewrite Hnil in Ha. by apply elem_of_nil in Ha.
    - rewrite Hnil in Hb. by apply elem_of_nil in Hb. }
  specialize (Hlen _ Hres).
  assert (results = []) as ->.
  { destruct results; [done|]. simpl in Hlen.
    destruct Hnil as [Hnil|Hnil]; rewrite Hnil in Hlen; simpl in Hlen; lia. }
  split; [done|]. unfold find_hits. by rewrite Hres.
Qed.

Lemma empty_range_finds_nothing_witness :
  find_hits Exact.arith failing_gcf Sample.small_enumerator [[5]; []] [[4]]
  = Ok [].
Proof.
  apply (empty_range_finds_nothing Exact.arith failing_gcf
           Sample.small_enumerator [[5]; []] [[4]]).
  left. right. left.
Defined.

Lemma b_assignments_opp poly_b b_coef :
  b_coef ∈ b_assignments (map (map Z.opp) poly_b)
  <-> b_coef ∈ b_assignments poly_b.
Proof.
  unfold b_assignments.
  replace (map (map Z.opp) (map (map Z.opp) poly_b)) with poly_b.
  - rewrite !elem_of_app. tauto.
  - rewrite map_map. rewrite <- (map_id poly_b) at 1.
    apply map_ext. intros l. rewrite map_map. rewrite <- (map_id l) at 1.
    apply map_ext. intros x. lia.
Qed.

(** X13: the search treats [poly_b] and its negation alike: where the
    first enumeration returns for [poly_b], it returns for the ranges of
    [poly_b] with every coefficient negated, and the two lists hold the
    same matches. *)
Theorem negated_poly_b_same_matches {ar : MpArith}
    (gcf_evaluate : list Z -> list Z -> exc mpf) (self : EnumerateOverGCF)
    (poly_a poly_b : list (list Z)) (results : list Match) :
  first_enumeration gcf_evaluate self poly_a poly_b = Ok results ->
  exists negated,
    first_enumeration gcf_evaluate self poly_a (map (map Z.opp) poly_b)
    = Ok negated
    /\ forall m, m ∈ results <-> m ∈ negated.
Proof.
  intros Hres.
  destruct (first_enumeration_spec gcf_evaluate self poly_a poly_b)
    as (Hmem & Hok & _).
  destruct (first_enumeration_spec gcf_evaluate self poly_a
              (map (map Z.opp) poly_b)) as (Hmem' & Hok' & _).
  destruct (proj2 Hok') as [negated Hneg].
  { intros a b Ha Hb. apply (proj1 Hok); [eauto|done|].
    by apply b_assignments_opp. }
  exists negated. split; [done|]. intros m.
  rewrite (Hmem _ Hres), (Hmem' _ Hneg).
  split; intros (a & b & hits & Ha & Hb & Hrest);
    exists a, b, hits; (split; [done|]); (split; [|done]);
    by apply b_assignments_opp.
Qed.

Lemma negated_poly_b_same_matches_witness :
  first_enumeration (ar := Exact.arith 50) (forward_gcf (Exact.arith 50))
    Sample.small_enumerator [[5; 3]] [[4]]
  = Ok [SampleMatches.other; SampleMatches.good]
  /\ exists negated,
       first_enumeration (ar := Exact.arith 50) (forward_gcf (Exact.arith 50))
         Sample.small_enumerator [[5; 3]] (map (map Z.opp) [[4]]) = Ok negated
       /\ (SampleMatches.good ∈ [SampleMatches.other; SampleMatches.good]
           <-> SampleMatches.good ∈ negated).
Proof.
  assert (Hf : first_enumeration (ar := Exact.arith 50)
                 (forward_gcf (Exact.arith 50))
                 Sample.small_enumerator [[5; 3]] [[4]]
               = Ok [SampleMatches.other; SampleMatches.good])
    by (vm_compute; reflexivity).
  split; [exact Hf|].
  destruct (negated_poly_b_same_matches (ar := Exact.arith 50) _ _ _ _ _ Hf)
    as (negated & Hneg & Hmem).
  exists negated. split; [exact Hneg | apply Hmem].
Defined.

(** ** The refinement, again *)

Lemma filter_sublist {A : Type} (p : A -> bool) (l : list A) :
  sublist (List.filter p l) l.
Proof.
  induction l as [|x l IH]; simpl; [constructor|].
  destruct (p x); by constructor.
Qed.

Lemma refine_loop_confirmed {ar : MpArith} gcf self dps ms acc :
  Forall (fun r => confirmed gcf self dps r = true) ms ->
  for_each (refine_body gcf self dps) ms acc = Ok (acc ++ ms).
Proof.
  revert acc. induction ms as [|r ms IH]; intros acc Hall; simpl.
  { by rewrite app_nil_r. }
  apply Forall_cons in Hall as [Hr Hall].
  unfold confirmed in Hr.
  destruct (refine_checks self dps (lhs_coefs r)) as [[val|]|] eqn:Hc;
    try done.
  rewrite (refine_body_checked _ _ _ _ _ _ Hc).
  destruct (gcf _ _) as [rhs|]; [|done]. simpl. rewrite Hr. simpl.
  rewrite IH by done. by rewrite <- app_assoc.
Qed.

Lemma refine_checks_pole {ar : MpArith} self dps t val :
  refine_checks self dps t = Ok (Some val) -> m_c t + m_d t <> 0.
Proof.
  unfold refine_checks.
  destruct (MobiusTransform_call t (PyMpf _)) as [v|]; simpl; [|done].
  destruct (isinf v || isnan v); [done|].
  intros Hc Hcd. unfold MobiusTransform_call in Hc.
  rewrite !Z.mul_1_r, Hcd in Hc. done.
Qed.

(** X14: the verifier returns the matches it confirms in the order they
    came, a sublist of its input, and confirms each of them again: the
    refinement of its own results returns them unchanged. *)
Theorem refine_results_idempotent {ar : MpArith}
    (gcf_evaluate : list Z -> list Z -> exc mpf) (self : EnumerateOverGCF)
    (dps : Z) (intermediate_results results : list Match) :
  refine_results gcf_evaluate self dps intermediate_results = Ok results ->
  results = List.filter (confirmed gcf_evaluate self dps) intermediate_results
  /\ sublist results intermediate_results
  /\ refine_results gcf_evaluate self dps results = Ok results.
Proof.
  intros Hres. apply refine_results_filter in Hres as ->.
  split; [done|]. split; [apply filter_sublist|].
  unfold refine_results. apply (refine_loop_confirmed _ _ _ _ []).
  apply Forall_forall. intros r Hr.
  by apply list_elem_of_In, filter_In in Hr as [_ Hr].
Qed.

Lemma refine_results_idempotent_witness :
  refine_results (ar := Exact.arith 4000) (forward_gcf (Exact.arith 4000))
    Sample.small_enumerator 4000
    [SampleMatches.good; SampleMatches.collision] = Ok [SampleMatches.good]
  /\ refine_results (ar := Exact.arith 4000) (forward_gcf (Exact.arith 4000))
       Sample.small_enumerator 4000 [SampleMatches.good]
     = Ok [SampleMatches.good].
Proof.
  assert (Hres : refine_results (ar := Exact.arith 4000)
                   (forward_gcf (Exact.arith 4000)) Sample.small_enumerator
                   4000 [SampleMatches.good; SampleMatches.collision]
                 = Ok [SampleMatches.good]) by (vm_compute; reflexivity).
  split; [exact Hres|].
  exact (proj2 (proj2 (refine_results_idempotent (ar := Exact.arith 4000)
                         (forward_gcf (Exact.arith 4000))
                         Sample.small_enumerator 4000
                         [SampleMatches.good; SampleMatches.collision]
                         [SampleMatches.good] Hres))).
Defined.

Lemma probe_match_table {ar : MpArith} gcf self a_coef b_coef m :
  probe_match gcf self a_coef b_coef = Ok [m] ->
  exists key, s (hash_table self) !! key = Some (lhs_coefs m).
Proof.
  unfold probe_match, getitem.
  destruct (gcf _ _) as [v|]; simpl; [|done].
  destruct (py_div v (e_threshold self)) as [q|]; simpl; [|done].
  destruct (mp_int q) as [key|]; simpl; [|done].
  destruct (s (hash_table self) !! key) as [lhs|] eqn:Hkey; [|done].
  intros [= <-]. eauto.
Qed.

(** X15: every result of [find_hits] pairs a transformation stored in the
    table with an assignment of [poly_a] and an assignment of [poly_b] or
    of its negation, neither with a zero among its 32 terms; its
    transformation has [c + d <> 0] and passes the checks at the precision
    of the verification, and the strings of 100 digits of the two sides
    are equal. *)
Theorem find_hits_sound (arith : Z -> MpArith)
    (EfficientGCF_evaluate : MpArith -> list Z -> list Z -> exc mpf)
    (self : EnumerateOverGCF) (poly_a poly_b : list (list Z))
    (results : list Match) (m : Match) :
  find_hits arith EfficientGCF_evaluate self poly_a poly_b = Ok results ->
  m ∈ results ->
  (exists key, s (hash_table self) !! key = Some (lhs_coefs m))
  /\ rhs_an_poly m ∈ product poly_a
  /\ rhs_bn_poly m ∈ b_assignments poly_b
  /\ zero_free self m
  /\ m_c (lhs_coefs m) + m_d (lhs_coefs m) <> 0
  /\ exists val rhs,
       refine_checks (ar := arith (verify_dps * 2)) self (verify_dps * 2)
         (lhs_coefs m) = Ok (Some val)
       /\ EfficientGCF_evaluate (arith (verify_dps * 2))
            (create_an_series self (rhs_an_poly m) 1000%nat)
            (create_bn_series self (rhs_bn_poly m) 1000%nat) = Ok rhs
       /\ mp_nstr (MpArith := arith (verify_dps * 2)) val 100
          = mp_nstr (MpArith := arith (verify_dps * 2)) rhs 100.
Proof.
  unfold find_hits.
  destruct (first_enumeration _ _ _ _) as [found|] eqn:Hfound; simpl; [|done].
  intros Hres Hm. apply refine_results_filter in Hres as ->.
  apply list_elem_of_In, filter_In in Hm as [Hm Hconf].
  apply list_elem_of_In in Hm.
  destruct (first_enumeration_spec (ar := arith enum_dps)
              (EfficientGCF_evaluate (arith enum_dps)) self poly_a poly_b)
    as (Hmem & _ & _).
  apply (Hmem _ Hfound) in Hm as (a & b & hits & Ha & Hb & Hza & Hzb & Hp & Hm).
  destruct (probe_match_inv _ _ _ _ _ _ Hp Hm) as (<- & <- & ->).
  split; [by eapply probe_match_table|].
  split; [done|]. split; [done|]. split; [done|].
  unfold confirmed in Hconf.
  destruct (refine_checks self (verify_dps * 2) (lhs_coefs m))
    as [[val|]|] eqn:Hc; try done.
  split; [by eapply refine_checks_pole|].
  destruct (EfficientGCF_evaluate _ _ _) as [rhs|]; [|done].
  exists val, rhs. split; [done|]. split; [done|].
  by apply String.eqb_eq.
Qed.

Lemma find_hits_sound_witness :
  find_hits Exact.arith forward_gcf Sample.small_enumerator [[5; 3]] [[4]]
  = Ok [SampleMatches.other; SampleMatches.good]
  /\ rhs_bn_poly SampleMatches.good ∈ b_assignments [[4]]
  /\ m_c (lhs_coefs SampleMatches.good) + m_d (lhs_coefs SampleMatches.good)
     <> 0.
Proof.
  assert (Hf : find_hits Exact.arith forward_gcf Sample.small_enumerator
                 [[5; 3]] [[4]]
               = Ok [SampleMatches.other; SampleMatches.good])
    by (vm_compute; reflexivity).
  assert (Hin : SampleMatches.good
                ∈ [SampleMatches.other; SampleMatches.good]) by (right; left).
  destruct (find_hits_sound _ _ _ _ _ _ _ Hf Hin)
    as (_ & _ & Hb & _ & Hcd & _).
  split; [exact Hf|]. split; [exact Hb | exact Hcd].
Defined.

(** ** The partition, again *)

Lemma tile_loop_app num_cores index splits_size rounds1 rounds2 poly_a :
  tile_loop num_cores index splits_size (rounds1 ++ rounds2) poly_a
  = match tile_loop num_cores index splits_size rounds1 poly_a with
    | (poly_a', Ok _) => tile_loop num_cores index splits_size rounds2 poly_a'
    | (poly_a', Raise e) => (poly_a', Raise e)
    end.
Proof.
  revert poly_a. induction rounds1 as [|sidx rounds1 IH]; intros poly_a; simpl.
  - done.
  - destruct (tile_step _ _ _ _ _); [apply IH | done].
Qed.

(** X16: with more tile sizes than [poly_a] has ranges,
    [multi_core_enumeration] raises [IndexError] before any table is
    loaded or any search is run, and by then every range of [poly_a] has
    already been replaced by the slice of the worker. *)
Theorem too_many_tile_sizes (arith : Z -> MpArith) (gen : series_generator)
    (gcf : MpArith -> list Z -> list Z -> exc mpf) (sym_constant : Z -> mpf)
    (lhs_search_limit : Z) (saved_hash : string) (st : store)
    (num_cores : Z) (splits_size : list Z)
    (create_an_series create_bn_series : option series_generator)
    (index : Z) (w : world) :
  (length (st_poly_a st) < length splits_size)%nat ->
  let out :=
    multi_core_enumeration arith gen gcf sym_constant lhs_search_limit
      saved_hash st num_cores splits_size create_an_series create_bn_series
      index w in
  snd out = Raise IndexError
  /\ fst (fst out) = w
  /\ st_poly_b (store_after out) = st_poly_b st
  /\ length (st_poly_a (store_after out)) = length (st_poly_a st)
  /\ forall sidx tile row,
       splits_size !! sidx = Some tile ->
       st_poly_a st !! sidx = Some row ->
       st_poly_a (store_after out) !! sidx
       = Some (worker_slice num_cores index tile row).
Proof.
  intros Hlen. unfold multi_core_enumeration.
  replace (length splits_size)
    with (length (st_poly_a st)
          + S (length splits_size - length (st_poly_a st) - 1))%nat by lia.
  rewrite seq_app, tile_loop_app.
  destruct (tile_loop_spec num_cores index splits_size
              (seq 0 (length (st_poly_a st))) (st_poly_a st))
    as (poly_a' & -> & Hlen' & Hlook).
  { apply NoDup_seq. }
  { intros s0 Hs0. apply list_elem_of_In, in_seq in Hs0. lia. }
  simpl. unfold tile_step.
  destruct (lookup_lt_is_Some_2 splits_size (length (st_poly_a st)) Hlen)
    as [tile ->].
  rewrite (lookup_ge_None_2 poly_a') by lia.
  unfold store_after. simpl. repeat (split; [done|]).
  intros sidx tile' row Htile Hrow.
  rewrite Hlook, decide_True, Htile, Hrow; [done|].
  apply list_elem_of_In, in_seq. apply lookup_lt_Some in Hrow. lia.
Qed.

Lemma too_many_tile_sizes_witness :
  snd (multi_core_enumeration Exact.arith series_from_compact_poly forward_gcf
         Sample.quarter 1 EmptyString (mkStore [[5; 3]] [[4]]) 2 [1; 1]
         None None 0 Sample.world0) = Raise IndexError
  /\ st_poly_a
       (store_after
          (multi_core_enumeration Exact.arith series_from_compact_poly
             forward_gcf Sample.quarter 1 EmptyString (mkStore [[5; 3]] [[4]])
             2 [1; 1] None None 0 Sample.world0)) !! 0%nat = Some [5].
Proof.
  destruct (too_many_tile_sizes Exact.arith series_from_compact_poly
              forward_gcf Sample.quarter 1 EmptyString
              (mkStore [[5; 3]] [[4]]) 2 [1; 1] None None 0 Sample.world0)
    as (Hraise & _ & _ & _ & Hslice); [simpl; lia|].
  split; [exact Hraise|].
  apply (Hslice 0%nat 1 [5; 3]); reflexivity.
Defined.

(** The slices cover the range when the last worker takes the rest. *)
Lemma worker_slices_cover_rest num_cores tile row :
  0 < num_cores -> 0 <= tile ->
  (num_cores - 1) * tile <= Z.of_nat (length row) ->
  concat (map (fun j => worker_slice num_cores j tile row)
            (py_range 0 num_cores)) = row.
Proof.
  intros Hn Ht Hlen. rewrite py_range_seq, map_map.
  replace (Z.to_nat num_cores) with (S (Z.to_nat (num_cores - 1))) by lia.
  rewrite seq_S, map_app, concat_app. simpl. rewrite app_nil_r.
  rewrite (map_ext_in _
             (fun j => take (Z.to_nat tile) (drop (j * Z.to_nat tile) row))).
  - rewrite concat_tiles, worker_slice_nonneg by lia.
    replace (Z.of_nat (Z.to_nat (num_cores - 1)) =? num_cores - 1) with true
      by (symmetry; apply Z.eqb_eq; lia).
    replace (Z.to_nat (Z.of_nat (Z.to_nat (num_cores - 1)) * tile))
      with (Z.to_nat (num_cores - 1) * Z.to_nat tile)%nat by nia.
    apply take_drop.
  - intros j Hj. apply in_seq in Hj.
    rewrite worker_slice_nonneg by lia.
    replace (Z.of_nat j =? num_cores - 1) with false
      by (symmetry; apply Z.eqb_neq; lia).
    do 2 f_equal. nia.
Qed.

(** X17: the naive split always covers: with no tile size given and at
    least one worker, the tile is the length of the first range divided
    by the number of workers, rounded down; the slices of the workers,
    one after the other, are the first range, each worker but the last
    holds a tile and the last worker holds a tile and the remainder. *)
Theorem naive_split_covers (num_cores : Z) (row : list Z)
    (rest : list (list Z)) :
  1 <= num_cores ->
  let tile := Z.of_nat (length row) / num_cores in
  wrapper_splits (row :: rest) num_cores None = Ok [tile]
  /\ concat (map (fun j => worker_slice num_cores j tile row)
               (py_range 0 num_cores)) = row
  /\ (forall j, 0 <= j < num_cores - 1 ->
        Z.of_nat (length (worker_slice num_cores j tile row)) = tile)
  /\ Z.of_nat (length (worker_slice num_cores (num_cores - 1) tile row))
     = tile + Z.of_nat (length row) mod num_cores.
Proof.
  intros Hn tile.
  assert (Htile : 0 <= tile) by (apply Z.div_pos; lia).
  assert (Hdiv : Z.of_nat (length row)
                 = num_cores * tile + Z.of_nat (length row) mod num_cores)
    by (apply Z.div_mod; lia).
  assert (Hmod : 0 <= Z.of_nat (length row) mod num_cores < num_cores)
    by (apply Z.mod_pos_bound; lia).
  split; [|split; [|split]].
  - unfold wrapper_splits.
    by destruct (Z.eqb_spec num_cores 0) as [?|_]; [lia|].
  - apply worker_slices_cover_rest; [lia | done | nia].
  - intros j Hj. rewrite worker_slice_nonneg by lia.
    destruct (Z.eqb_spec j (num_cores - 1)) as [?|_]; [lia|].
    rewrite length_take, length_drop. nia.
  - rewrite worker_slice_nonneg by lia.
    rewrite Z.eqb_refl, length_drop. nia.
Qed.

Lemma naive_split_covers_witness :
  wrapper_splits ([1; 2; 3; 4; 5; 6; 7] :: []) 3 None = Ok [2]
  /\ concat (map (fun j => worker_slice 3 j 2 [1; 2; 3; 4; 5; 6; 7])
               (py_range 0 3)) = [1; 2; 3; 4; 5; 6; 7]
  /\ Z.of_nat (length (worker_slice 3 (3 - 1) 2 [1; 2; 3; 4; 5; 6; 7])) = 3.
Proof.
  destruct (naive_split_covers 3 [1; 2; 3; 4; 5; 6; 7] []) as
    (Hsplit & Hcover & _ & Hlast); [lia|].
  split; [exact Hsplit|]. split; [exact Hcover | exact Hlast].
Defined.

(** ** The wrapper, again *)

(** X18: with a number of workers other than 1 the wrapper leaves the
    lists of its caller as they are, the workers slicing copies of them;
    with a number of workers below 1 it returns no results but raises. *)
Theorem wrapper_other_worker_counts (arith : Z -> MpArith)
    (gen : series_generator)
    (gcf : MpArith -> list Z -> list Z -> exc mpf) (posix : bool)
    (sym_constant : Z -> mpf) (lhs_search_limit : Z) (st : store)
    (num_cores : Z) (manual_splits_size : option (list Z))
    (saved_hash : option string)
    (create_an_series create_bn_series : option series_generator)
    (w : world) :
  num_cores <> 1 ->
  let out :=
    multi_core_enumeration_wrapper arith gen gcf posix sym_constant
      lhs_search_limit st num_cores manual_splits_size saved_hash
      create_an_series create_bn_series w in
  store_after out = st
  /\ (num_cores < 1 -> exists e, snd out = Raise e).
Proof.
  intros Hne. unfold multi_core_enumeration_wrapper, store_after.
  destruct (wrapper_prepare _ _ _ _ _ _ _) as [w1 [name|e]]; simpl; [|eauto].
  destruct (wrapper_splits _ _ _) as [splits_size|e]; simpl; [|eauto].
  destruct (Z.eqb_spec num_cores 1) as [?|_]; [done|].
  destruct (Z.ltb_spec num_cores 1) as [Hlt|Hge]; simpl; [eauto|].
  split; [done|]. intros Hlt. lia.
Qed.

Lemma wrapper_other_worker_counts_witness :
  store_after SampleRun.two_workers = mkStore [[5; 3]] [[4]]
  /\ exists e,
       snd (multi_core_enumeration_wrapper Exact.arith
              series_from_compact_poly forward_gcf true Sample.quarter 1
              (mkStore [[5; 3]] [[4]]) 0 (Some [1]) None None None
              Sample.world0) = Raise e.
Proof.
  split.
  - apply (wrapper_other_worker_counts Exact.arith series_from_compact_poly
             forward_gcf true Sample.quarter 1 (mkStore [[5; 3]] [[4]]) 2
             None None None None Sample.world0). lia.
  - apply (wrapper_other_worker_counts Exact.arith series_from_compact_poly
             forward_gcf true Sample.quarter 1 (mkStore [[5; 3]] [[4]]) 0
             (Some [1]) None None None Sample.world0); lia.
Defined.




